(** * Cortex spaced-repetition scheduler: the scheduling and outcome engine

    A shallow embedding of [src/app.component.ts]: schedule generation
    ([generateSchedule]), review completion ([markReviewComplete]), topic
    deletion ([deleteTopic]) and the 60-day activity heatmap
    ([activityHeatmap]); then topic creation ([analyzeAndAddTopic], with
    the fallback of [analyzeTopic] in [src/services/gemini.service.ts]),
    notes ([updateNotes]), the view state ([setView], [selectedTopic]),
    the dashboard lists ([upcomingReviews], [weeklyWorkload]), the advice
    ([getAdvice]) and the days-until label ([getDaysUntil]); followed by
    the properties stated about them.

    Conventions of the embedding.
    - A JavaScript [number] that takes part in fractional arithmetic is an
      IEEE-754 binary64 value, modelled by the standard library's
      [spec_float] at precision 53 and maximal exponent 1024.  Counters,
      lengths and the integral results of [Math.round] / [Math.ceil] are
      integers.
    - A [Date] is its time value: milliseconds since the epoch, in [Z].
      An ISO string produced by [toISOString] is identified with the time
      value it denotes, and [iso.split('T')[0]] with the UTC day number
      [dayOf].  The bound of the ECMAScript time range is not modelled.
    - [setDate(getDate() + n)] moves a date by [n] local calendar days.
      The definitions of the first part take the local zone to have a
      fixed UTC offset, where this is [n] times 86400000 ms ([addDays]).
      [setDate] and [Module Zoned] give the same functions for an
      arbitrary zone, in which a clock change makes a calendar day 23 or
      25 hours long; the two agree in every zone of fixed offset
      ([zoned_generateSchedule_fixed] and its neighbours).
    - A string is the sequence of bytes of its UTF-8 encoding; its
      JavaScript [length] is the number of UTF-16 code units of that text
      ([utf16Length]).
    - Every [new Date()] made while one call runs reads the same instant,
      the parameter [now] of that call. *)

From Stdlib Require Import ZArith List Bool Lia Sorted Permutation.
From Stdlib Require Import SpecFloat.
From stdpp Require Import base list gmap strings.

Open Scope Z_scope.

(** ** JavaScript numbers (binary64) *)

Module JsNum.

Definition prec : Z := 53.
Definition emax : Z := 1024.

Definition num : Type := spec_float.

(** An integer read as a number (rounded to nearest when it needs more
    than 53 bits). *)
Definition ofZ (z : Z) : num := binary_normalize prec emax z 0 false.

Definition add : num -> num -> num := SFadd prec emax.
Definition sub : num -> num -> num := SFsub prec emax.
Definition mul : num -> num -> num := SFmul prec emax.
Definition div : num -> num -> num := SFdiv prec emax.

(** A decimal literal [n/d]: the double nearest to the quotient. *)
Definition lit (n d : Z) : num := div (ofZ n) (ofZ d).

(** [Math.max(a, b)]. *)
Definition max (a b : num) : num :=
  match SFcompare a b with
  | Some Lt => b
  | Some _ => a
  | None => S754_nan
  end.

(** The signed integer mantissa of a finite value [m * 2^e]. *)
Definition mant (s : bool) (m : positive) : Z := cond_Zopp s (Zpos m).

(** [Math.ceil]. *)
Definition ceil (x : num) : Z :=
  match x with
  | S754_finite s m e =>
      if 0 <=? e then mant s m * 2 ^ e
      else - ((- mant s m) / 2 ^ (- e))
  | _ => 0
  end.

(** [Math.round]: nearest integer, ties towards plus infinity. *)
Definition round (x : num) : Z :=
  match x with
  | S754_finite s m e =>
      if 0 <=? e then mant s m * 2 ^ e
      else (2 * mant s m + 2 ^ (- e)) / 2 ^ (- e + 1)
  | _ => 0
  end.

(** The truncation towards zero that [new Date(number)] applies. *)
Definition trunc (x : num) : Z :=
  match x with
  | S754_finite s m e =>
      if 0 <=? e then mant s m * 2 ^ e
      else Z.quot (mant s m) (2 ^ (- e))
  | _ => 0
  end.

End JsNum.

(** ** Rounding and enclosures of numbers *)

(** A right-shift record lost a nonzero bit. *)
Definition inexact (mrs : shr_record) : bool := shr_r mrs || shr_s mrs.

(** [y] is [x] shifted right by [n] bits. *)
Definition shifted (n : Z) (x y : shr_record) : Prop :=
  shr_m y = shr_m x / 2 ^ n /\
  inexact y = inexact x || negb (shr_m x mod 2 ^ n =? 0).

(** [dy emn j lo hi f]: [f] is zero or a normal number with a 53-bit
    mantissa and exponent at least [emn], and
    [lo / 2^j <= f <= hi / 2^j]. *)
Definition dy (emn j lo hi : Z) (f : JsNum.num) : Prop :=
  match f with
  | S754_zero _ => lo <= 0 <= hi
  | S754_finite s m e =>
      2 ^ 52 <= Zpos m < 2 ^ 53 /\ emn <= e /\ e + j <= 0 /\
      lo * 2 ^ (- e - j) <= JsNum.mant s m <= hi * 2 ^ (- e - j)
  | _ => False
  end.

(** ** Time *)

(** [1000 * 60 * 60 * 24] *)
Definition msPerDay : Z := 1000 * 60 * 60 * 24.

(** [iso.split('T')[0]]: the UTC calendar day of a time value. *)
Definition dayOf (t : Z) : Z := t / msPerDay.

(** [d.setDate(d.getDate() + n)] *)
Definition addDays (t n : Z) : Z := t + n * msPerDay.

(** [Math.ceil(diffTime / (1000 * 60 * 60 * 24))] *)
Definition ceilDays (diffTime : Z) : Z :=
  JsNum.ceil (JsNum.div (JsNum.ofZ diffTime) (JsNum.ofZ msPerDay)).

(** ** Data model *)

Inductive SessionType : Set := initial | standard | final | recovery.

Inductive Rating : Set := hard | good | easy.

Record ReviewSession : Set := mkSession {
  date : Z;
  completed : bool;
  completedDate : option Z;
  interval : Z;
  type : SessionType;
  rating : option Rating
}.

(** The [nextReviewDate] string: an ISO date or one of the sentinels. *)
Inductive NextReview : Set :=
  | NextAt (d : Z)
  | NextCompleted
  | NextNoReviews
  | NextUnset.

Record Topic : Set := mkTopic {
  id : string;
  name : string;
  addedDate : Z;
  examDate : option Z;
  complexity : Z;
  subtopics : list string;
  summary : string;
  reviews : list ReviewSession;
  nextReviewDate : NextReview;
  mastery : Z;
  notes : option string
}.

Definition SessionType_eqb (a b : SessionType) : bool :=
  match a, b with
  | initial, initial | standard, standard
  | final, final | recovery, recovery => true
  | _, _ => false
  end.

Definition isGoodOrEasy (r : option Rating) : bool :=
  match r with
  | Some good | Some easy => true
  | _ => false
  end.

(** ** Schedule generation *)

(** [Math.max(1.3, baseMultiplier - complexity * 0.12)] *)
Definition multiplierOf (complexity : Z) : JsNum.num :=
  JsNum.max (JsNum.lit 13 10)
    (JsNum.sub (JsNum.lit 5 2)
       (JsNum.mul (JsNum.ofZ complexity) (JsNum.lit 12 100))).

Definition pending (d ivl : Z) (ty : SessionType) : ReviewSession :=
  {| date := d; completed := false; completedDate := None;
     interval := ivl; type := ty; rating := None |}.

(** [examDate && runningDate > examDate] *)
Definition pastExam (examDate : option Z) (runningDate : Z) : bool :=
  match examDate with
  | Some e => e <? runningDate
  | None => false
  end.

(** The [while (maxReviews > 0)] loop; [schedule] is the array pushed to. *)
Fixpoint scheduleLoop (maxReviews : nat) (examDate : option Z)
    (multiplier ivl : JsNum.num) (runningDate : Z)
    (schedule : list ReviewSession) : list ReviewSession :=
  match maxReviews with
  | O => schedule
  | S maxReviews' =>
      if pastExam examDate runningDate then schedule
      else
        let schedule' :=
          schedule ++
          [pending runningDate (JsNum.round ivl)
             (if (length schedule =? 0)%nat then initial else standard)] in
        let ivl' := JsNum.mul ivl multiplier in
        let nextJump := JsNum.ceil ivl' in
        scheduleLoop maxReviews' examDate multiplier ivl'
          (addDays runningDate nextJump) schedule'
  end.

(** The reconciliation with the exam date after the loop. *)
Definition reconcileExam (examDate : Z) (schedule : list ReviewSession)
    : list ReviewSession :=
  match last schedule with
  | None => [pending examDate 0 final]
  | Some lastReview =>
      let lastReviewDate := date lastReview in
      let diffDays := ceilDays (examDate - lastReviewDate) in
      if 4 <? diffDays then
        let finalReview := addDays examDate (-2) in
        if lastReviewDate <? finalReview then
          schedule ++ [pending finalReview (diffDays - 2) final]
        else schedule
      else schedule
  end.

Definition generateSchedule (now : Z) (complexity : Z)
    (examDate : option Z) : list ReviewSession :=
  let schedule :=
    scheduleLoop 20 examDate (multiplierOf complexity) (JsNum.ofZ 1)
      (addDays now 1) [] in
  match examDate with
  | None => schedule
  | Some e => reconcileExam e schedule
  end.

(** ** Array helpers *)

(** [arr.findIndex((r, idx) => p(idx, r))], scanning from index [i]. *)
Fixpoint findIndexFrom {A : Type} (p : nat -> A -> bool) (i : nat)
    (l : list A) : option nat :=
  match l with
  | [] => None
  | x :: l' => if p i x then Some i else findIndexFrom p (S i) l'
  end.

Definition findIndex {A : Type} (p : nat -> A -> bool) (l : list A)
    : option nat :=
  findIndexFrom p 0%nat l.

(** [reviews.sort((a, b) => time(a.date) - time(b.date))]: the stable sort
    by ascending date, written as insertion from the right. *)
Fixpoint insertByDate (x : ReviewSession) (l : list ReviewSession)
    : list ReviewSession :=
  match l with
  | [] => [x]
  | y :: l' => if date x <=? date y then x :: y :: l'
               else y :: insertByDate x l'
  end.

Fixpoint sortByDate (l : list ReviewSession) : list ReviewSession :=
  match l with
  | [] => []
  | x :: l' => insertByDate x (sortByDate l')
  end.

(** ** Review completion *)

(** [{ ...r, completed: true, rating, completedDate: now }] *)
Definition complete (now : Z) (rt : Rating) (r : ReviewSession)
    : ReviewSession :=
  {| date := date r; completed := true; completedDate := Some now;
     interval := interval r; type := type r; rating := Some rt |}.

(** [newDiff = currentDiff * 1.3] *)
Definition newDiff (now oldDate : Z) : JsNum.num :=
  JsNum.mul (JsNum.ofZ (oldDate - now)) (JsNum.lit 13 10).

(** [new Date(today.getTime() + newDiff)] *)
Definition stretchedDate (now oldDate : Z) : Z :=
  JsNum.trunc (JsNum.add (JsNum.ofZ now) (newDiff now oldDate)).

(** [Math.ceil(newDiff / (1000 * 60 * 60 * 24))] *)
Definition stretchedInterval (now oldDate : Z) : Z :=
  JsNum.ceil (JsNum.div (newDiff now oldDate) (JsNum.ofZ msPerDay)).

(** [{ ...nextReview, date: newDate, interval: ... }] *)
Definition stretch (now : Z) (nextReview : ReviewSession) : ReviewSession :=
  {| date := stretchedDate now (date nextReview);
     completed := completed nextReview;
     completedDate := completedDate nextReview;
     interval := stretchedInterval now (date nextReview);
     type := type nextReview;
     rating := rating nextReview |}.

(** [reviews.some(r => day(r.date) === day(tomorrow))] *)
Definition existsOnDay (day : Z) (rs : list ReviewSession) : bool :=
  existsb (fun r => dayOf (date r) =? day) rs.

(** The next pending, non-final session after [reviewIndex]. *)
Definition isNextCandidate (reviewIndex idx : nat) (r : ReviewSession)
    : bool :=
  (reviewIndex <? idx)%nat && negb (completed r)
  && negb (SessionType_eqb (type r) final).

(** The rating-dependent rescheduling of [markReviewComplete]. *)
Definition reschedule (now : Z) (rt : Rating) (reviewIndex : nat)
    (rs : list ReviewSession) : list ReviewSession :=
  match rt with
  | hard =>
      let tomorrow := addDays now 1 in
      if existsOnDay (dayOf tomorrow) rs then rs
      else sortByDate (rs ++ [pending tomorrow 1 recovery])
  | easy =>
      match findIndex (isNextCandidate reviewIndex) rs with
      | Some nextIndex => sortByDate (alter (stretch now) nextIndex rs)
      | None => rs
      end
  | good => rs
  end.

(** [Math.round((goodOrEasyCount / completedCount) * 100)], or 0. *)
Definition masteryOf (rs : list ReviewSession) : Z :=
  let completedCount := length (List.filter completed rs) in
  let goodOrEasyCount :=
    length (List.filter
              (fun r => completed r && isGoodOrEasy (rating r)) rs) in
  if (0 <? completedCount)%nat then
    JsNum.round
      (JsNum.mul
         (JsNum.div (JsNum.ofZ (Z.of_nat goodOrEasyCount))
                    (JsNum.ofZ (Z.of_nat completedCount)))
         (JsNum.ofZ 100))
  else 0.

(** [next ? next.date : 'Completed'] for the first pending session that is
    not before [now]. *)
Definition nextReviewOf (now : Z) (rs : list ReviewSession) : NextReview :=
  match List.find (fun r => negb (completed r) && (now <=? date r)) rs with
  | Some next => NextAt (date next)
  | None => NextCompleted
  end.

(** The body of [topics.map] for the topic whose id matches. *)
Definition completeReview (now : Z) (reviewDate : Z) (rt : Rating)
    (t : Topic) : Topic :=
  match findIndex (fun _ r => date r =? reviewDate) (reviews t) with
  | None => t
  | Some reviewIndex =>
      let rs := alter (complete now rt) reviewIndex (reviews t) in
      let rs := reschedule now rt reviewIndex rs in
      {| id := id t; name := name t; addedDate := addedDate t;
         examDate := examDate t; complexity := complexity t;
         subtopics := subtopics t; summary := summary t;
         reviews := rs;
         nextReviewDate := nextReviewOf now rs;
         mastery := masteryOf rs;
         notes := notes t |}
  end.

Definition markReviewComplete (now : Z) (topicId : string)
    (reviewDate : Z) (rt : Rating) (topics : list Topic) : list Topic :=
  map (fun t => if negb (String.eqb (id t) topicId) then t
                else completeReview now reviewDate rt t) topics.

(** [deleteTopic]; [confirmed] is the answer of the [confirm] dialog. *)
Definition deleteTopic (confirmed : bool) (topicId : string)
    (topics : list Topic) : list Topic :=
  if confirmed then
    List.filter (fun t => negb (String.eqb (id t) topicId)) topics
  else topics.

(** ** Activity heatmap *)

(** [(r.completedDate || r.date).split('T')[0]] *)
Definition activityDay (r : ReviewSession) : Z :=
  dayOf (match completedDate r with Some c => c | None => date r end).

(** [map.set(dateStr, (map.get(dateStr) || 0) + 1)] *)
Definition bump (m : gmap Z nat) (day : Z) : gmap Z nat :=
  <[day := (default 0%nat (m !! day) + 1)%nat]> m.

Definition tallyReview (m : gmap Z nat) (r : ReviewSession) : gmap Z nat :=
  if completed r then bump m (activityDay r) else m.

Definition tallyTopic (m : gmap Z nat) (t : Topic) : gmap Z nat :=
  foldl tallyReview m (reviews t).

Definition tally (topics : list Topic) : gmap Z nat :=
  foldl tallyTopic ∅ topics.

(** The cascade of [if (count > k) intensity = ...] assignments. *)
Definition intensityOf (count : nat) : nat :=
  let intensity := 0%nat in
  let intensity := if (0 <? count)%nat then 1%nat else intensity in
  let intensity := if (2 <? count)%nat then 2%nat else intensity in
  let intensity := if (5 <? count)%nat then 3%nat else intensity in
  let intensity := if (8 <? count)%nat then 4%nat else intensity in
  intensity.

Record Cell : Set := mkCell {
  cellDate : Z;
  cellCount : nat;
  cellIntensity : nat
}.

Definition cellAt (now : Z) (m : gmap Z nat) (i : nat) : Cell :=
  let dateStr := dayOf (addDays now (- Z.of_nat i)) in
  let count := default 0%nat (m !! dateStr) in
  {| cellDate := dateStr; cellCount := count;
     cellIntensity := intensityOf count |}.

(** [for (let i = n - 1; i >= 0; i--) grid.push(...)] *)
Fixpoint gridLoop (now : Z) (m : gmap Z nat) (n : nat) : list Cell :=
  match n with
  | O => []
  | S i => cellAt now m i :: gridLoop now m i
  end.

Definition activityHeatmap (now : Z) (topics : list Topic) : list Cell :=
  let days := 60%nat in
  gridLoop now (tally topics) days.

(** ** Orderings of review lists *)


(** Dates never decrease along the list: sorted by ascending date. *)
Definition ascending (l : list ReviewSession) : Prop :=
  StronglySorted (fun a b => date a <= date b) l.




(** Moving a session by [delta] milliseconds. *)
Definition shift (delta : Z) (r : ReviewSession) : ReviewSession :=
  {| date := date r + delta; completed := completed r;
     completedDate := completedDate r; interval := interval r;
     type := type r; rating := rating r |}.


(** The twenty unclamped sessions, from a cursor at time 0. *)
Definition baseSchedule (c : Z) : list ReviewSession :=
  scheduleLoop 20 None (multiplierOf c) (JsNum.ofZ 1) 0 [].

(** Does a completed session count towards [day]? *)
Definition countsOn (day : Z) (r : ReviewSession) : bool :=
  completed r && (activityDay r =? day).

(** The number of completed sessions, over all topics, whose activity day
    is [day]. *)
Definition activityCount (day : Z) (topics : list Topic) : nat :=
  length (List.filter (countsOn day) (List.concat (map reviews topics))).

(** The intensity table: 0, 1-2, 3-5, 6-8, 9 and more. *)
Definition intensityTable (count : nat) : nat :=
  if (count =? 0)%nat then 0%nat
  else if (count <=? 2)%nat then 1%nat
  else if (count <=? 5)%nat then 2%nat
  else if (count <=? 8)%nat then 3%nat
  else 4%nat.

(** The fields a completion leaves alone. *)
Definition sameIdentity (t t' : Topic) : Prop :=
  id t' = id t /\ name t' = name t /\ addedDate t' = addedDate t /\
  examDate t' = examDate t /\ complexity t' = complexity t /\
  subtopics t' = subtopics t /\ summary t' = summary t /\
  notes t' = notes t.

(** ** Sample data *)

(** 2023-11-14T22:13:20.000Z *)
Definition sampleNow : Z := 1700000000000.

(** A topic with two pending sessions, one and three days after
    [sampleNow]. *)
Definition sampleTopic : Topic :=
  {| id := "t1"; name := "Graphs"; addedDate := sampleNow;
     examDate := None; complexity := 5;
     subtopics := ["Core Concepts"]; summary := "summary";
     reviews := [pending 1700086400000 1 initial;
                 pending 1700259200000 2 standard];
     nextReviewDate := NextAt 1700086400000; mastery := 0;
     notes := None |}.

(** ** Outcomes of sessions *)

(** [r'] carries the completion state, rating and completion date of
    [r]. *)
Definition outcomeKept (r r' : ReviewSession) : Prop :=
  completed r' = completed r /\ rating r' = rating r /\
  completedDate r' = completedDate r.

(** The statement that one completion leaves the stored outcome of every
    completed session of topic [t] intact. *)
Definition outcomesFrozenBy (now d : Z) (rt : Rating) (t : Topic) : Prop :=
  forall r, In r (reviews t) -> completed r = true ->
    exists r', In r' (reviews (completeReview now d rt t)) /\
               date r' = date r /\ rating r' = rating r /\
               completedDate r' = completedDate r.

(** ** The easy stretch, as stated *)

(** The statement that an [easy] completion of the session dated [d] moves
    the next pending non-final session to [now + 1.3 * (old - now)]
    exactly, strictly later than before, with the ceiling of the new gap
    in days as its interval. *)
Definition easyStretchExactAt (now d : Z) (t : Topic) : Prop :=
  forall i j r,
    findIndex (fun _ x => date x =? d) (reviews t) = Some i ->
    findIndex (isNextCandidate i)
      (alter (complete now easy) i (reviews t)) = Some j ->
    reviews t !! j = Some r ->
    exists r',
      In r' (reviews (completeReview now d easy t)) /\
      10 * (date r' - now) = 13 * (date r - now) /\
      date r < date r' /\
      interval r' = - ((- (date r' - now)) / msPerDay).

(** A topic whose two sessions, two days and one day before [sampleNow],
    are both still pending. *)
Definition overdueTopic : Topic :=
  {| id := "t2"; name := "Trees"; addedDate := 1699740800000;
     examDate := None; complexity := 5;
     subtopics := ["Core Concepts"]; summary := "summary";
     reviews := [pending 1699827200000 1 initial;
                 pending 1699913600000 2 standard];
     nextReviewDate := NextAt 1699827200000; mastery := 0;
     notes := None |}.

(** ** Mastery, as stated *)

(** [round(100 * good / completed)], rounding halves up, and 0 without
    completed sessions. *)
Definition roundedPercent (goodOrEasy completedCount : Z) : Z :=
  if 0 <? completedCount
  then (200 * goodOrEasy + completedCount) / (2 * completedCount)
  else 0.

Definition masteryAsStated (rs : list ReviewSession) : Z :=
  roundedPercent
    (Z.of_nat (length (List.filter
                         (fun r => completed r && isGoodOrEasy (rating r))
                         rs)))
    (Z.of_nat (length (List.filter completed rs))).

(** Forty completed sessions, 23 of them rated [good] and 17 [hard]. *)
Definition tiedReviews : list ReviewSession :=
  repeat (complete sampleNow good (pending 1699913600000 1 standard)) 23 ++
  repeat (complete sampleNow hard (pending 1699913600000 1 recovery)) 17.

(** ** Notes *)

(** [topics.map(t => t.id === topicId ? { ...t, notes: text } : t)] *)
Definition updateNotes (topicId text : string) (topics : list Topic)
    : list Topic :=
  map (fun t =>
         if String.eqb (id t) topicId then
           {| id := id t; name := name t; addedDate := addedDate t;
              examDate := examDate t; complexity := complexity t;
              subtopics := subtopics t; summary := summary t;
              reviews := reviews t; nextReviewDate := nextReviewDate t;
              mastery := mastery t; notes := Some text |}
         else t) topics.

(** ** Application state *)

Inductive View : Set := viewDashboard | viewAdd | viewDetails.

(** The signals of the component. *)
Record App : Set := mkApp {
  appTopics : list Topic;
  activeView : View;
  selectedTopicId : option string;
  isLoading : bool
}.

Definition setView (view : View) (sel : option string) (a : App) : App :=
  {| appTopics := appTopics a; activeView := view;
     selectedTopicId := sel; isLoading := isLoading a |}.

(** [topics().find(t => t.id === selectedTopicId()) || null] *)
Definition selectedTopic (a : App) : option Topic :=
  match selectedTopicId a with
  | Some sel => List.find (fun t => String.eqb (id t) sel) (appTopics a)
  | None => None
  end.

(** [deleteTopic] on the whole component: the filter, then
    [setView('dashboard')]. *)
Definition deleteTopicIn (confirmed : bool) (topicId : string) (a : App)
    : App :=
  if confirmed then
    setView viewDashboard None
      {| appTopics := deleteTopic true topicId (appTopics a);
         activeView := activeView a;
         selectedTopicId := selectedTopicId a;
         isLoading := isLoading a |}
  else a.

(** ** Labels *)

(** The string returned by [getDaysUntil]. *)
Inductive DaysLabel : Set :=
  | LabelEmpty
  | DaysRemaining (days : Z)
  | DatePassed.

Definition getDaysUntil (now : Z) (dateStr : option Z) : DaysLabel :=
  match dateStr with
  | None => LabelEmpty
  | Some d =>
      let diff := d - now in
      let days := ceilDays diff in
      if 0 <? days then DaysRemaining days else DatePassed
  end.

(** ** Upcoming reviews and weekly workload *)

(** [d.setHours(0, 0, 0, 0)]: local midnight, for a zone [offset] ms east
    of UTC. *)
Definition startOfDay (offset t : Z) : Z := t - (t + offset) mod msPerDay.

Record Upcoming : Set := mkUpcoming {
  upTopicName : string;
  upDate : Z;
  upTopicId : string;
  daysAway : Z;
  upType : SessionType
}.

(** The entry pushed for one topic, if any. *)
Definition upcomingOf (today : Z) (t : Topic) : option Upcoming :=
  match List.find (fun r => negb (completed r) && (today <=? date r))
                  (reviews t) with
  | Some next =>
      let diffTime := date next - today in
      Some {| upTopicName := name t; upDate := date next;
              upTopicId := id t; daysAway := ceilDays diffTime;
              upType := type next |}
  | None => None
  end.

(** A stable sort by an integer key, as [Array.prototype.sort] with the
    comparator [(a, b) => key(a) - key(b)]. *)
Fixpoint insertByKey {A : Type} (key : A -> Z) (x : A) (l : list A)
    : list A :=
  match l with
  | [] => [x]
  | y :: l' => if key x <=? key y then x :: y :: l'
               else y :: insertByKey key x l'
  end.

Fixpoint sortByKey {A : Type} (key : A -> Z) (l : list A) : list A :=
  match l with
  | [] => []
  | x :: l' => insertByKey key x (sortByKey key l')
  end.

Definition upcomingReviews (offset now : Z) (topics : list Topic)
    : list Upcoming :=
  let today := startOfDay offset now in
  let allReviews :=
    foldl (fun acc t =>
             match upcomingOf today t with
             | Some u => acc ++ [u]
             | None => acc
             end) [] topics in
  sortByKey daysAway allReviews.

Record WorkDay : Set := mkWorkDay {
  wdDate : Z;
  wdName : string;
  wdCount : nat;
  wdHeavy : bool
}.

(** [toLocaleDateString('en-US', { weekday: 'short' })]; 1970-01-01 was
    a Thursday. *)
Definition weekdayName (offset t : Z) : string :=
  nth (Z.to_nat ((dayOf (t + offset) + 4) mod 7))
      ["Sun"; "Mon"; "Tue"; "Wed"; "Thu"; "Fri"; "Sat"] "Sun".

(** [workload[diffDays].count++] *)
Definition countUp (d : WorkDay) : WorkDay :=
  {| wdDate := wdDate d; wdName := wdName d;
     wdCount := S (wdCount d); wdHeavy := wdHeavy d |}.

Definition workloadReview (offset today : Z) (workload : list WorkDay)
    (review : ReviewSession) : list WorkDay :=
  if negb (completed review) then
    let rDate := startOfDay offset (date review) in
    let diffDays := ceilDays (rDate - today) in
    if (0 <=? diffDays) && (diffDays <? 7)
    then alter countUp (Z.to_nat diffDays) workload
    else workload
  else workload.

Definition weeklyWorkload (offset now : Z) (topics : list Topic)
    : list WorkDay :=
  let workload :=
    map (fun i => {| wdDate := addDays now (Z.of_nat i);
                     wdName := weekdayName offset (addDays now (Z.of_nat i));
                     wdCount := 0; wdHeavy := false |})
        (seq 0 7) in
  let today := startOfDay offset now in
  let workload :=
    foldl (fun w t => foldl (workloadReview offset today) w (reviews t))
          workload topics in
  map (fun d => {| wdDate := wdDate d; wdName := wdName d;
                   wdCount := wdCount d;
                   wdHeavy := (3 <? wdCount d)%nat |}) workload.

(** ** Advice *)

Inductive Advice : Set :=
  | InsufficientData
  | Critical
  | EfficiencyWarning
  | Optimal.

(** [a > b] on numbers. *)
Definition numGt (a b : JsNum.num) : bool := SFltb b a.

Definition hasRating (rt : Rating) (r : ReviewSession) : bool :=
  match rating r, rt with
  | Some hard, hard | Some good, good | Some easy, easy => true
  | _, _ => false
  end.

Definition getAdvice (topic : Topic) : Advice :=
  let rs := List.filter completed (reviews topic) in
  if (length rs <? 3)%nat then InsufficientData
  else
    let hardCount := Z.of_nat (length (List.filter (hasRating hard) rs)) in
    let easyCount := Z.of_nat (length (List.filter (hasRating easy) rs)) in
    let total := Z.of_nat (length rs) in
    if numGt (JsNum.div (JsNum.ofZ hardCount) (JsNum.ofZ total))
             (JsNum.lit 4 10)
    then Critical
    else if numGt (JsNum.div (JsNum.ofZ easyCount) (JsNum.ofZ total))
                  (JsNum.lit 6 10)
    then EfficiencyWarning
    else Optimal.

(** ** Spacing of a schedule *)

(** The times between consecutive sessions. *)
Fixpoint gaps (l : list ReviewSession) : list Z :=
  match l with
  | [] => []
  | a :: l' =>
      match l' with
      | [] => []
      | b :: _ => (date b - date a) :: gaps l'
      end
  end.

(** Every gap is at least two days and no gap is shorter than the one
    before it. *)
Fixpoint wideningb (minGap : Z) (gs : list Z) : bool :=
  match gs with
  | [] => true
  | g :: gs' =>
      (minGap <=? g) &&
      match gs' with
      | [] => true
      | g' :: _ => (g <=? g')
      end && wideningb minGap gs'
  end.


Definition complexities : list Z := [1; 2; 3; 4; 5; 6; 7; 8; 9; 10].

(** ** Local days *)

(** A time that, moved to the local zone, lies within 2^49 ms of the
    epoch (about 17,800 years either way). *)
Definition inWindow (offset t : Z) : Prop :=
  - 2 ^ 49 < t + offset < 2 ^ 49.

(** The local calendar day of a time value. *)
Definition localDay (offset t : Z) : Z := dayOf (t + offset).

(** A pending session on local day [day]. *)
Definition pendingOn (offset day : Z) (r : ReviewSession) : bool :=
  negb (completed r) && (localDay offset (date r) =? day).

(** The number of pending sessions, over all topics, on local day [day]. *)
Definition workloadCount (offset day : Z) (topics : list Topic) : nat :=
  length (List.filter (pendingOn offset day)
            (List.concat (map reviews topics))).

(** [this.topics.update(f)] on the component. *)
Definition updateTopics (f : list Topic -> list Topic) (a : App) : App :=
  {| appTopics := f (appTopics a); activeView := activeView a;
     selectedTopicId := selectedTopicId a; isLoading := isLoading a |}.

(** ** Time zones *)

(** A time zone as [Date] sees it: the offset of local time from UTC in
    milliseconds, given a UTC time value ([utcOffset], the LocalTZA of
    ECMAScript at a UTC time) and given a local time value
    ([localOffset], the LocalTZA at a local time; for a local time that a
    clock change skips or repeats it is the offset before the change). *)
Record Zone : Type := mkZone {
  utcOffset : Z -> Z;
  localOffset : Z -> Z
}.

(** [LocalTime(t)] and [UTC(t)]. *)
Definition localTime (z : Zone) (t : Z) : Z := t + utcOffset z t.
Definition utcTime (z : Zone) (l : Z) : Z := l - localOffset z l.

(** [d.setDate(d.getDate() + n)]: the local calendar date moves by [n]
    days and the local time of day is kept; the result is read back as a
    UTC time value. *)
Definition setDate (z : Zone) (t n : Z) : Z :=
  utcTime z (localTime z t + n * msPerDay).

(** A zone whose clocks never change. *)
Definition fixedZone (off : Z) : Zone :=
  {| utcOffset := fun _ => off; localOffset := fun _ => off |}.

Definition fixedOffset (z : Zone) : Prop :=
  exists off, forall t, utcOffset z t = off /\ localOffset z t = off.

Definition hour : Z := 3600000.

(** America/New_York in 2023 and 2024: daylight time (UTC-4) from
    2023-03-12T07:00Z to 2023-11-05T06:00Z and from 2024-03-10T07:00Z to
    2024-11-03T06:00Z, standard time (UTC-5) otherwise. *)
Definition newYork : Zone :=
  let est := -5 * hour in
  let edt := -4 * hour in
  {| utcOffset := fun t =>
       if (1678604400000 <=? t) && (t <? 1699164000000) then edt
       else if (1710054000000 <=? t) && (t <? 1730613600000) then edt
       else est;
     localOffset := fun l =>
       if (1678604400000 + edt <=? l) && (l <? 1699164000000 + edt) then edt
       else if (1710054000000 + edt <=? l) && (l <? 1730613600000 + edt)
       then edt
       else est |}.

(** The functions that move dates with [setDate], for an arbitrary zone.
    The definitions of the same names above are these in a zone of fixed
    offset, where [setDate] adds [n] times 86400000 ms. *)
Module Zoned.

Fixpoint scheduleLoop (z : Zone) (maxReviews : nat) (examDate : option Z)
    (multiplier ivl : JsNum.num) (runningDate : Z)
    (schedule : list ReviewSession) : list ReviewSession :=
  match maxReviews with
  | O => schedule
  | S maxReviews' =>
      if pastExam examDate runningDate then schedule
      else
        let schedule' :=
          schedule ++
          [pending runningDate (JsNum.round ivl)
             (if (length schedule =? 0)%nat then initial else standard)] in
        let ivl' := JsNum.mul ivl multiplier in
        let nextJump := JsNum.ceil ivl' in
        scheduleLoop z maxReviews' examDate multiplier ivl'
          (setDate z runningDate nextJump) schedule'
  end.

Definition reconcileExam (z : Zone) (examDate : Z)
    (schedule : list ReviewSession) : list ReviewSession :=
  match last schedule with
  | None => [pending examDate 0 final]
  | Some lastReview =>
      let lastReviewDate := date lastReview in
      let diffDays := ceilDays (examDate - lastReviewDate) in
      if 4 <? diffDays then
        let finalReview := setDate z examDate (-2) in
        if lastReviewDate <? finalReview then
          schedule ++ [pending finalReview (diffDays - 2) final]
        else schedule
      else schedule
  end.

Definition generateSchedule (z : Zone) (now : Z) (complexity : Z)
    (examDate : option Z) : list ReviewSession :=
  let schedule :=
    scheduleLoop z 20 examDate (multiplierOf complexity) (JsNum.ofZ 1)
      (setDate z now 1) [] in
  match examDate with
  | None => schedule
  | Some e => reconcileExam z e schedule
  end.

Definition reschedule (z : Zone) (now : Z) (rt : Rating)
    (reviewIndex : nat) (rs : list ReviewSession) : list ReviewSession :=
  match rt with
  | hard =>
      let tomorrow := setDate z now 1 in
      if existsOnDay (dayOf tomorrow) rs then rs
      else sortByDate (rs ++ [pending tomorrow 1 recovery])
  | easy =>
      match findIndex (isNextCandidate reviewIndex) rs with
      | Some nextIndex => sortByDate (alter (stretch now) nextIndex rs)
      | None => rs
      end
  | good => rs
  end.

Definition completeReview (z : Zone) (now : Z) (reviewDate : Z)
    (rt : Rating) (t : Topic) : Topic :=
  match findIndex (fun _ r => date r =? reviewDate) (reviews t) with
  | None => t
  | Some reviewIndex =>
      let rs := alter (complete now rt) reviewIndex (reviews t) in
      let rs := reschedule z now rt reviewIndex rs in
      {| id := id t; name := name t; addedDate := addedDate t;
         examDate := examDate t; complexity := complexity t;
         subtopics := subtopics t; summary := summary t;
         reviews := rs;
         nextReviewDate := nextReviewOf now rs;
         mastery := masteryOf rs;
         notes := notes t |}
  end.

Definition markReviewComplete (z : Zone) (now : Z) (topicId : string)
    (reviewDate : Z) (rt : Rating) (topics : list Topic) : list Topic :=
  map (fun t => if negb (String.eqb (id t) topicId) then t
                else completeReview z now reviewDate rt t) topics.

(** [d.setDate(d.getDate() - i)], then [d.toISOString().split('T')[0]]. *)
Definition cellAt (z : Zone) (now : Z) (m : gmap Z nat) (i : nat) : Cell :=
  let dateStr := dayOf (setDate z now (- Z.of_nat i)) in
  let count := default 0%nat (m !! dateStr) in
  {| cellDate := dateStr; cellCount := count;
     cellIntensity := intensityOf count |}.

Fixpoint gridLoop (z : Zone) (now : Z) (m : gmap Z nat) (n : nat)
    : list Cell :=
  match n with
  | O => []
  | S i => cellAt z now m i :: gridLoop z now m i
  end.

Definition activityHeatmap (z : Zone) (now : Z) (topics : list Topic)
    : list Cell :=
  let days := 60%nat in
  gridLoop z now (tally topics) days.

End Zoned.

(** ** Topic creation *)









(** ** Sample instants in New York *)


(** 2023-11-06T00:30Z: 19:30 on the 5th, the day the clocks went back. *)
Definition nov6Early : Z := 1699230600000.

(** 2023-11-05T12:00Z. *)
Definition nov5Noon : Z := 1699185600000.

(** A topic whose one session was completed on 2023-11-05 at noon UTC. *)
Definition topicDoneNov5 : Topic :=
  {| id := "t1"; name := "Graphs"; addedDate := 1698969600000;
     examDate := None; complexity := 5;
     subtopics := ["Core Concepts"]; summary := "summary";
     reviews := [complete nov5Noon good (pending 1699056000000 1 initial)];
     nextReviewDate := NextCompleted; mastery := 100;
     notes := None |}.



(** * Properties *)

(** ** Rounding of binary64 numbers *)

Module JsNumFacts.
Import JsNum.

Lemma digits2_bounds p :
  2 ^ (Zpos (digits2_pos p) - 1) <= Zpos p < 2 ^ Zpos (digits2_pos p).
Proof.
  induction p as [p IH | p IH |]; cbn [digits2_pos].
  - rewrite Pos2Z.inj_succ. change (Zpos p~1) with (2 * Zpos p + 1).
    replace (Z.succ (Zpos (digits2_pos p)) - 1)
      with (Z.succ (Zpos (digits2_pos p) - 1)) by lia.
    rewrite !Z.pow_succ_r by lia.
    destruct IH as [IH1 IH2]. revert IH1 IH2.
    generalize (2 ^ (Zpos (digits2_pos p) - 1)) (2 ^ Zpos (digits2_pos p)).
    intros; lia.
  - rewrite Pos2Z.inj_succ. change (Zpos p~0) with (2 * Zpos p).
    replace (Z.succ (Zpos (digits2_pos p)) - 1)
      with (Z.succ (Zpos (digits2_pos p) - 1)) by lia.
    rewrite !Z.pow_succ_r by lia.
    destruct IH as [IH1 IH2]. revert IH1 IH2.
    generalize (2 ^ (Zpos (digits2_pos p) - 1)) (2 ^ Zpos (digits2_pos p)).
    intros; lia.
  - simpl. lia.
Qed.

Lemma digits2_unique p d :
  2 ^ (d - 1) <= Zpos p < 2 ^ d -> Zpos (digits2_pos p) = d.
Proof.
  intros [Hlo Hhi]. pose proof (digits2_bounds p) as [Hlo' Hhi'].
  assert (0 < d).
  { destruct (Z.ltb_spec 0 d); [assumption |].
    assert (2 ^ d <= 2 ^ 0) by (destruct (Z.eqb_spec d 0);
      [subst; lia | rewrite Z.pow_neg_r by lia; simpl; lia]).
    simpl in *. lia. }
  assert (Zpos (digits2_pos p) - 1 < d).
  { apply (Z.pow_lt_mono_r_iff 2); lia. }
  assert (d - 1 < Zpos (digits2_pos p)).
  { apply (Z.pow_lt_mono_r_iff 2); lia. }
  lia.
Qed.

Lemma shifted_1 x : 0 <= shr_m x -> shifted 1 x (shr_1 x).
Proof.
  destruct x as [m r s]. unfold shifted, inexact. cbn [shr_m shr_r shr_s].
  intros Hm. change (2 ^ 1) with 2.
  destruct m as [| p | p]; [| | lia].
  - split; [reflexivity |]. destruct r, s; reflexivity.
  - destruct p as [p | p |]; cbn [shr_1 shr_m shr_r shr_s].
    + change (Zpos p~1) with (2 * Zpos p + 1). split.
      * apply Z.div_unique with 1; lia.
      * replace ((2 * Zpos p + 1) mod 2) with 1
          by (apply Z.mod_unique with (Zpos p); lia).
        destruct r, s; reflexivity.
    + change (Zpos p~0) with (2 * Zpos p). split.
      * apply Z.div_unique with 0; lia.
      * replace ((2 * Zpos p) mod 2) with 0
          by (apply Z.mod_unique with (Zpos p); lia).
        destruct r, s; reflexivity.
    + split; [reflexivity |]. destruct r, s; reflexivity.
Qed.

Lemma shifted_trans a b x y z :
  0 <= a -> 0 <= b -> 0 <= shr_m x ->
  shifted a x y -> shifted b y z -> shifted (a + b) x z.
Proof.
  intros Ha Hb Hx [Hy1 Hy2] [Hz1 Hz2]. unfold shifted.
  assert (Hpa : 0 < 2 ^ a) by (apply Z.pow_pos_nonneg; lia).
  assert (Hpb : 0 < 2 ^ b) by (apply Z.pow_pos_nonneg; lia).
  rewrite Z.pow_add_r by assumption. split.
  - rewrite Hz1, Hy1. apply Z.div_div; lia.
  - rewrite Hz2, Hy2, Hy1. rewrite <- orb_assoc. f_equal.
    rewrite Z.rem_mul_r by lia.
    pose proof (Z.mod_pos_bound (shr_m x) (2 ^ a) Hpa).
    pose proof (Z.mod_pos_bound (shr_m x / 2 ^ a) (2 ^ b) Hpb).
    destruct (Z.eqb_spec (shr_m x mod 2 ^ a) 0) as [E1 | E1];
      destruct (Z.eqb_spec ((shr_m x / 2 ^ a) mod 2 ^ b) 0) as [E2 | E2];
      simpl; symmetry.
    + apply negb_false_iff, Z.eqb_eq. rewrite E1, E2. lia.
    + apply negb_true_iff, Z.eqb_neq. nia.
    + apply negb_true_iff, Z.eqb_neq. nia.
    + apply negb_true_iff, Z.eqb_neq. nia.
Qed.

Lemma shifted_nonneg n x y : 0 <= n -> 0 <= shr_m x -> shifted n x y -> 0 <= shr_m y.
Proof.
  intros Hn Hx [H _]. rewrite H. apply Z.div_pos; [assumption |].
  apply Z.pow_pos_nonneg; lia.
Qed.

Lemma iter_shr_1 p x :
  0 <= shr_m x -> shifted (Zpos p) x (SpecFloat.iter_pos shr_1 p x).
Proof.
  revert x. induction p as [p IH | p IH |]; intros x Hx; cbn [SpecFloat.iter_pos].
  - assert (H1 := shifted_1 x Hx).
    assert (Hx1 := shifted_nonneg 1 _ _ ltac:(lia) Hx H1).
    assert (H2 := IH _ Hx1).
    assert (Hx2 := shifted_nonneg (Zpos p) _ _ ltac:(lia) Hx1 H2).
    assert (H3 := IH _ Hx2).
    replace (Zpos p~1) with (1 + (Zpos p + Zpos p)) by lia.
    eapply shifted_trans; [lia | lia | assumption | exact H1 |].
    eapply shifted_trans; [lia | lia | assumption | exact H2 | exact H3].
  - assert (H2 := IH _ Hx).
    assert (Hx2 := shifted_nonneg (Zpos p) _ _ ltac:(lia) Hx H2).
    assert (H3 := IH _ Hx2).
    replace (Zpos p~0) with (Zpos p + Zpos p) by lia.
    eapply shifted_trans; [lia | lia | assumption | exact H2 | exact H3].
  - now apply shifted_1.
Qed.

Lemma shr_spec mrs e n :
  0 <= shr_m mrs -> 0 <= n ->
  snd (shr mrs e n) = e + n /\ shifted n mrs (fst (shr mrs e n)).
Proof.
  intros Hm Hn. destruct n as [| p | p]; [| | lia]; cbn [shr fst snd].
  - split; [lia |]. unfold shifted. simpl. rewrite Z.div_1_r, Z.mod_1_r.
    simpl. now rewrite orb_false_r.
  - split; [reflexivity |]. now apply iter_shr_1.
Qed.

Lemma round_nearest_even_bounds m l :
  m <= round_nearest_even m l <= m + 1.
Proof.
  destruct l as [| [ | | ]]; cbn [round_nearest_even]; try lia.
  destruct (Z.even m); lia.
Qed.

Lemma loc_of_exact mrs :
  inexact mrs = false -> loc_of_shr_record mrs = loc_Exact.
Proof. destruct mrs as [m [|] [|]]; unfold inexact; simpl; congruence. Qed.

Lemma shr_m_of_loc m l : shr_m (shr_record_of_loc m l) = m.
Proof. destruct l as [| [ | | ]]; reflexivity. Qed.

Lemma inexact_of_exact m : inexact (shr_record_of_loc m loc_Exact) = false.
Proof. reflexivity. Qed.

Lemma fexp_normal e : -1074 <= e - 53 -> fexp prec emax e = e - 53.
Proof. unfold fexp, emin, prec, emax. lia. Qed.

Lemma pow2_pos n : 0 <= n -> 0 < 2 ^ n.
Proof. intros. apply Z.pow_pos_nonneg; lia. Qed.

Lemma pow2_split a b : 0 <= a -> 0 <= b -> 2 ^ (a + b) = 2 ^ a * 2 ^ b.
Proof. intros. apply Z.pow_add_r; assumption. Qed.

(** Rounding a positive mantissa of at least 53 bits, in the normal range
    and without overflow: the result lies between the two neighbours of
    the exact value on the 53-bit grid, and is exact when nothing is lost. *)
Lemma binary_round_aux_faithful s p ex lx :
  let n := Zpos (digits2_pos p) - 53 in
  0 <= n -> -1074 <= ex + n -> ex + n + 1 <= 971 ->
  exists m e,
    binary_round_aux prec emax s (Zpos p) ex lx = S754_finite s m e /\
    2 ^ 52 <= Zpos m < 2 ^ 53 /\
    ex + n <= e <= ex + n + 1 /\
    (Zpos p / 2 ^ n) * 2 ^ n <= Zpos m * 2 ^ (e - ex)
      <= (Zpos p / 2 ^ n + 1) * 2 ^ n /\
    (lx = loc_Exact -> Zpos p mod 2 ^ n = 0 ->
     Zpos m * 2 ^ (e - ex) = Zpos p).
Proof.
  intros n Hn Hlo Hhi.
  pose proof (digits2_bounds p) as [Hd1 Hd2].
  pose proof (pow2_pos n Hn) as Hpn.
  replace (Zpos (digits2_pos p) - 1) with (52 + n) in Hd1 by (unfold n; lia).
  replace (Zpos (digits2_pos p)) with (53 + n) in Hd2 by (unfold n; lia).
  rewrite pow2_split in Hd1, Hd2 by lia.
  unfold binary_round_aux, shr_fexp.
  cbn [Zdigits2]. rewrite fexp_normal by (unfold n in *; lia).
  replace (Zpos (digits2_pos p) + ex - 53 - ex) with n by (unfold n; lia).
  pose proof (shr_spec (shr_record_of_loc (Zpos p) lx) ex n) as Hs1.
  rewrite shr_m_of_loc in Hs1. specialize (Hs1 ltac:(lia) Hn).
  destruct (shr (shr_record_of_loc (Zpos p) lx) ex n) as [mrs1 e1].
  cbn [fst snd] in Hs1. destruct Hs1 as [-> [Hm1 Hf1]].
  rewrite shr_m_of_loc in Hm1.
  set (m' := Zpos p / 2 ^ n) in *.
  assert (Hm'lo : 2 ^ 52 <= m').
  { unfold m'. apply Z.div_le_lower_bound; lia. }
  assert (Hm'hi : m' < 2 ^ 53).
  { unfold m'. apply Z.div_lt_upper_bound; lia. }
  pose proof (round_nearest_even_bounds (shr_m mrs1) (loc_of_shr_record mrs1))
    as Hrne.
  set (m1 := round_nearest_even (shr_m mrs1) (loc_of_shr_record mrs1)) in *.
  rewrite Hm1 in Hrne.
  assert (Hexact : lx = loc_Exact -> Zpos p mod 2 ^ n = 0 -> m1 = m').
  { intros -> Hmod. unfold m1. rewrite loc_of_exact; [exact Hm1 |].
    rewrite Hf1, shr_m_of_loc, Hmod. reflexivity. }
  assert (Hp : Zpos p = 2 ^ n * m' + Zpos p mod 2 ^ n)
    by (unfold m'; apply Z.div_mod; lia).
  pose proof (Z.mod_pos_bound (Zpos p) (2 ^ n) Hpn) as Hmodb.
  clearbody m1.
  destruct (Z.ltb_spec m1 (2 ^ 53)) as [Hsmall | Hbig].
  - (* no carry *)
    destruct m1 as [| q | q]; [lia | | lia].
    assert (Hdq : Zpos (digits2_pos q) = 53)
      by (apply digits2_unique; lia).
    cbn [Zdigits2]. rewrite Hdq, fexp_normal by lia.
    replace (53 + (ex + n) - 53 - (ex + n)) with 0 by lia.
    cbn [shr shr_m shr_record_of_loc].
    replace (ex + n <=? emax - prec) with true
      by (symmetry; apply Z.leb_le; unfold emax, prec; lia).
    exists q, (ex + n). split; [reflexivity |].
    split; [lia |]. split; [lia |].
    replace (ex + n - ex) with n by lia.
    split; [nia |].
    intros Hl Hmod. rewrite (Hexact Hl Hmod). lia.
  - (* carry to 2^53 *)
    assert (Hm1eq : m1 = 9007199254740992) by (change (2 ^ 53) with 9007199254740992 in *; lia).
    assert (Hm'eq : m' = 9007199254740991) by (change (2 ^ 53) with 9007199254740992 in *; lia).
    rewrite Hm1eq.
    cbn [Zdigits2].
    replace (Zpos (digits2_pos 9007199254740992)) with 54 by reflexivity.
    rewrite fexp_normal by lia.
    replace (54 + (ex + n) - 53 - (ex + n)) with 1 by lia.
    cbn [shr shr_m shr_record_of_loc SpecFloat.iter_pos shr_1].
    replace (ex + n + 1 <=? emax - prec) with true
      by (symmetry; apply Z.leb_le; unfold emax, prec; lia).
    exists 4503599627370496%positive, (ex + n + 1).
    split; [reflexivity |].
    split; [split; [discriminate | reflexivity] |].
    split; [lia |].
    replace (ex + n + 1 - ex) with (1 + n) by lia.
    rewrite pow2_split by lia. change (2 ^ 1) with 2.
    split.
    + rewrite Hm'eq. lia.
    + intros Hl Hmod. specialize (Hexact Hl Hmod). lia.
Qed.

Lemma pow2_lt_inv a b : 0 <= b -> 2 ^ a < 2 ^ b -> a < b.
Proof. intros Hb H. apply (Z.pow_lt_mono_r_iff 2); [lia | assumption | assumption]. Qed.

Lemma pow2_le a b : 0 <= a <= b -> 2 ^ a <= 2 ^ b.
Proof. intros. apply Z.pow_le_mono_r; lia. Qed.

(** The workhorse: bounds [L / 2^j <= x <= H / 2^j] on the exact value
    survive rounding as soon as the multiples of [1 / 2^j] below [2^53 /
    2^j] are representable, that is [H < 2^53]. *)
Lemma binary_round_aux_bounds s p ex lx j L H :
  let n := Zpos (digits2_pos p) - 53 in
  0 <= n -> -1074 <= ex + n -> ex + n + 1 <= 971 ->
  ex + j <= 0 -> H < 2 ^ 53 ->
  L * 2 ^ (- ex - j) <= Zpos p ->
  (Zpos p < H * 2 ^ (- ex - j) \/
   (Zpos p = H * 2 ^ (- ex - j) /\ lx = loc_Exact)) ->
  exists m e,
    binary_round_aux prec emax s (Zpos p) ex lx = S754_finite s m e /\
    2 ^ 52 <= Zpos m < 2 ^ 53 /\
    ex + n <= e /\ e + j <= 0 /\
    L * 2 ^ (- e - j) <= Zpos m <= H * 2 ^ (- e - j).
Proof.
  intros n Hn Hlo Hhi Hj HH HL HU.
  destruct (binary_round_aux_faithful s p ex lx Hn Hlo Hhi)
    as (m & e & Heq & Hcanon & He & Hv & Hexact).
  fold n in He, Hv, Hexact.
  exists m, e. split; [exact Heq |]. split; [exact Hcanon |].
  split; [lia |].
  pose proof (digits2_bounds p) as [Hd1 _].
  replace (Zpos (digits2_pos p) - 1) with (52 + n) in Hd1 by (unfold n; lia).
  set (U := 2 ^ (- ex - j)) in *.
  assert (HUpos : 0 < U) by (apply pow2_pos; lia).
  assert (HpU : Zpos p < 2 ^ 53 * U) by (destruct HU as [HU | [HU _]]; nia).
  assert (Hn' : n <= - ex - j).
  { assert (52 + n < 53 + (- ex - j)); [| lia].
    apply pow2_lt_inv; [lia |]. rewrite (pow2_split 53) by lia. fold U. lia. }
  set (k := - ex - j - n) in *.
  assert (HUk : U = 2 ^ k * 2 ^ n).
  { unfold U. rewrite <- pow2_split by lia. f_equal; lia. }
  pose proof (pow2_pos n Hn) as Hpn.
  pose proof (pow2_pos k ltac:(lia)) as Hpk.
  set (v := Zpos m * 2 ^ (e - ex)) in *.
  assert (HvL : L * U <= v).
  { assert (L * 2 ^ k <= Zpos p / 2 ^ n).
    { apply Z.div_le_lower_bound; [lia |]. rewrite HUk in HL. lia. }
    nia. }
  assert (HvH : v <= H * U).
  { destruct HU as [HU | [HU Hex]].
    - assert (Zpos p / 2 ^ n < H * 2 ^ k).
      { apply Z.div_lt_upper_bound; [lia |]. rewrite HUk in HU. lia. }
      nia.
    - rewrite Hexact; [lia | exact Hex |].
      rewrite HU, HUk, Z.mul_assoc. apply Z_mod_mult. }
  pose proof (pow2_pos (e - ex) ltac:(lia)) as Hpe.
  assert (Hej : e + j <= 0).
  { assert (52 + (e - ex) < 53 + (- ex - j)); [| lia].
    apply pow2_lt_inv; [lia |].
    rewrite (pow2_split 52), (pow2_split 53) by lia. fold U.
    unfold v in HvH. nia. }
  split; [exact Hej |].
  assert (HUe : U = 2 ^ (- e - j) * 2 ^ (e - ex)).
  { unfold U. rewrite <- pow2_split by lia. f_equal; lia. }
  rewrite HUe in HvL, HvH. unfold v in HvL, HvH.
  split.
  - apply Z.mul_le_mono_pos_r with (2 ^ (e - ex)); lia.
  - apply Z.mul_le_mono_pos_r with (2 ^ (e - ex)); lia.
Qed.

Lemma iter_xO p d : Zpos (Pos.iter xO p d) = Zpos p * 2 ^ Zpos d.
Proof.
  induction d as [| d IH] using Pos.peano_ind.
  - simpl. lia.
  - rewrite Pos.iter_succ, Pos2Z.inj_succ, Z.pow_succ_r by lia.
    change (Zpos (Pos.iter xO p d)~0) with (2 * Zpos (Pos.iter xO p d)).
    rewrite IH. lia.
Qed.

Lemma shl_align_fst mx ex ex' :
  ex' <= ex ->
  Zpos (fst (shl_align mx ex ex')) = Zpos mx * 2 ^ (ex - ex') /\
  snd (shl_align mx ex ex') = ex'.
Proof.
  intros H. unfold shl_align.
  destruct (ex' - ex) as [| d | d] eqn:E; cbn [fst snd]; try lia.
  - replace (ex - ex') with 0 by lia. simpl. lia.
  - rewrite iter_xO. replace (ex - ex') with (Zpos d) by lia. lia.
Qed.

Lemma shl_align_id mx ex ex' : ex <= ex' -> shl_align mx ex ex' = (mx, ex).
Proof.
  intros H. unfold shl_align. destruct (ex' - ex) eqn:E; try reflexivity. lia.
Qed.

(** [binary_round], which first pads short mantissas to 53 bits. *)
Lemma binary_round_bounds s p ex j L H :
  let d := Zpos (digits2_pos p) in
  -1074 <= d + ex - 53 -> d + ex - 53 + 1 <= 971 ->
  ex + j <= 0 -> H < 2 ^ 53 ->
  L * 2 ^ (- ex - j) <= Zpos p <= H * 2 ^ (- ex - j) ->
  exists m e,
    binary_round prec emax s p ex = S754_finite s m e /\
    2 ^ 52 <= Zpos m < 2 ^ 53 /\
    d + ex - 53 <= e /\ e + j <= 0 /\
    L * 2 ^ (- e - j) <= Zpos m <= H * 2 ^ (- e - j).
Proof.
  intros d Hlo Hhi Hj HH [HL HU].
  unfold binary_round. rewrite fexp_normal by (fold d; lia). fold d.
  destruct (Z.leb_spec 53 d) as [Hd | Hd].
  - rewrite shl_align_id by lia.
    assert (HU' : Zpos p < H * 2 ^ (- ex - j) \/
                  (Zpos p = H * 2 ^ (- ex - j) /\ loc_Exact = loc_Exact)).
    { destruct (Z.eq_dec (Zpos p) (H * 2 ^ (- ex - j))) as [E | E];
        [right; split; [exact E | reflexivity] | left; lia]. }
    pose proof (binary_round_aux_bounds s p ex loc_Exact j L H) as Hb.
    cbv zeta in Hb. fold d in Hb.
    specialize (Hb ltac:(lia) ltac:(lia) ltac:(lia) Hj HH HL HU').
    destruct Hb as (m & e & Heq & Hc & He & Hej & Hb).
    exists m, e. repeat split; try tauto; lia.
  - pose proof (shl_align_fst p ex (d + ex - 53) ltac:(lia)) as [Hm He].
    destruct (shl_align p ex (d + ex - 53)) as [mz ez]. cbn [fst snd] in *.
    subst ez. replace (ex - (d + ex - 53)) with (53 - d) in Hm by lia.
    pose proof (digits2_bounds p) as [Hd1 Hd2]. fold d in Hd1, Hd2.
    pose proof (pow2_pos (53 - d) ltac:(lia)) as Hpp.
    assert (H52 : 2 ^ 52 = 2 ^ (d - 1) * 2 ^ (53 - d)).
    { rewrite <- pow2_split by lia. f_equal; lia. }
    assert (H53 : 2 ^ 53 = 2 ^ d * 2 ^ (53 - d)).
    { rewrite <- pow2_split by lia. f_equal; lia. }
    assert (Hdz : Zpos (digits2_pos mz) = 53).
    { apply digits2_unique. rewrite Hm. change (53 - 1) with 52.
      rewrite H52, H53. nia. }
    assert (HU2 : 2 ^ (- (d + ex - 53) - j) = 2 ^ (- ex - j) * 2 ^ (53 - d)).
    { rewrite <- pow2_split by lia. f_equal; lia. }
    assert (HL' : L * 2 ^ (- (d + ex - 53) - j) <= Zpos mz).
    { rewrite HU2, Hm. nia. }
    assert (HU' : Zpos mz < H * 2 ^ (- (d + ex - 53) - j) \/
                  (Zpos mz = H * 2 ^ (- (d + ex - 53) - j) /\
                   loc_Exact = loc_Exact)).
    { rewrite HU2, Hm.
      destruct (Z.eq_dec (Zpos p) (H * 2 ^ (- ex - j))) as [E | E].
      - right. split; [nia | reflexivity].
      - left. nia. }
    pose proof (binary_round_aux_bounds s mz (d + ex - 53) loc_Exact j L H)
      as Hb.
    cbv zeta in Hb. rewrite Hdz in Hb.
    specialize (Hb ltac:(lia) ltac:(lia) ltac:(lia) ltac:(lia) HH HL' HU').
    destruct Hb as (m & e & Heq & Hc & He' & Hej & Hb).
    exists m, e. repeat split; try tauto; lia.
Qed.

(** The sign of the result is the sign asked for, and nothing else
    depends on it. *)
Lemma binary_round_aux_opp mx ex lx :
  binary_round_aux prec emax true mx ex lx =
  SFopp (binary_round_aux prec emax false mx ex lx).
Proof.
  unfold binary_round_aux.
  destruct (shr_fexp prec emax mx ex lx) as [mrs e].
  destruct (shr_fexp prec emax _ e loc_Exact) as [mrs' e'].
  destruct (shr_m mrs'); try reflexivity.
  destruct (e' <=? emax - prec); reflexivity.
Qed.

Lemma binary_round_opp mx ex :
  binary_round prec emax true mx ex =
  SFopp (binary_round prec emax false mx ex).
Proof.
  unfold binary_round. destruct (shl_align _ _ _) as [mz ez].
  apply binary_round_aux_opp.
Qed.

Lemma ofZ_opp z : z <> 0 -> ofZ (- z) = SFopp (ofZ z).
Proof.
  intros Hz. unfold ofZ, binary_normalize. destruct z as [| p | p]; simpl.
  - contradiction.
  - apply binary_round_opp.
  - rewrite binary_round_opp.
    destruct (binary_round _ _ false p 0) as [[] | [] | | [] ? ?]; reflexivity.
Qed.

Lemma dy_weaken emn emn' j lo lo' hi hi' f :
  emn' <= emn -> lo' <= lo -> hi <= hi' ->
  dy emn j lo hi f -> dy emn' j lo' hi' f.
Proof.
  intros He Hl Hh. destruct f as [s | s | | s m e]; simpl; try tauto.
  - lia.
  - intros (Hc & Hemn & Hej & Hb).
    pose proof (pow2_pos (- e - j) ltac:(lia)).
    repeat split; try lia; nia.
Qed.

Lemma dy_opp emn j lo hi f :
  dy emn j lo hi f -> dy emn j (- hi) (- lo) (SFopp f).
Proof.
  destruct f as [s | s | | s m e]; simpl; try tauto.
  - lia.
  - intros (Hc & Hemn & Hej & Hb). repeat split; try lia;
      destruct s; unfold mant in *; simpl in *; lia.
Qed.

Lemma binary_normalize_dy S ez j L H :
  -1000 <= ez -> ez + j <= 0 -> -900 <= j ->
  - 2 ^ 53 < L -> H < 2 ^ 53 ->
  L * 2 ^ (- ez - j) <= S <= H * 2 ^ (- ez - j) ->
  dy (ez - 52) j L H (binary_normalize prec emax S ez false).
Proof.
  intros Hez Hj Hj' HL HH [Hlo Hhi].
  pose proof (pow2_pos (- ez - j) ltac:(lia)) as HU.
  assert (Hdigits : forall p, Zpos p < 2 ^ 53 * 2 ^ (- ez - j) ->
            1 <= Zpos (digits2_pos p) <= 53 - ez - j).
  { intros p Hp. pose proof (digits2_bounds p) as [Hd1 _].
    split; [lia |].
    assert (Zpos (digits2_pos p) - 1 < 53 + (- ez - j)); [| lia].
    apply pow2_lt_inv; [lia |]. rewrite pow2_split by lia. lia. }
  destruct S as [| p | p]; cbn [binary_normalize].
  - simpl. nia.
  - pose proof (Hdigits p ltac:(nia)) as Hd.
    destruct (binary_round_bounds false p ez j L H)
      as (m & e & -> & Hc & He & Hej & Hb); try lia.
    simpl. unfold mant. simpl. repeat split; lia.
  - pose proof (Hdigits p ltac:(nia)) as Hd.
    destruct (binary_round_bounds true p ez j (- H) (- L))
      as (m & e & -> & Hc & He & Hej & Hb); try lia.
    simpl. unfold mant. simpl. repeat split; lia.
Qed.

Lemma ofZ_dy z : - 2 ^ 53 < z < 2 ^ 53 -> dy (-52) 0 z z (ofZ z).
Proof.
  intros Hz. unfold ofZ.
  apply (binary_normalize_dy z 0 0 z z); simpl; lia.
Qed.

Lemma mant_pos_sign s m : 0 <= mant s m -> s = false.
Proof. destruct s; unfold mant; simpl; [lia | reflexivity]. Qed.

Lemma mant_false m : mant false m = Zpos m.
Proof. reflexivity. Qed.

(** ** Addition *)

Lemma add_dy k j a b c d x y :
  -1000 <= k -> -900 <= j ->
  - 2 ^ 53 < a + c -> b + d < 2 ^ 53 ->
  dy k j a b x -> dy k j c d y ->
  dy (k - 52) j (a + c) (b + d) (add x y).
Proof.
  intros Hk Hj Hlo Hhi Hx Hy.
  destruct x as [sx | sx | | sx mx ex]; try contradiction;
    destruct y as [sy | sy | | sy my ey]; try contradiction.
  - assert (Hz : forall s, dy (k - 52) j (a + c) (b + d) (S754_zero s))
      by (intros; simpl in *; lia).
    unfold add, SFadd. destruct sx, sy; apply Hz.
  - unfold add, SFadd. simpl in Hx.
    eapply dy_weaken; [| | | exact Hy]; lia.
  - unfold add, SFadd. simpl in Hy.
    eapply dy_weaken; [| | | exact Hx]; lia.
  - destruct Hx as (Hcx & Hkx & Hjx & Hbx).
    destruct Hy as (Hcy & Hky & Hjy & Hby).
    unfold add, SFadd.
    set (ez := Z.min ex ey).
    pose proof (shl_align_fst mx ex ez ltac:(unfold ez; lia)) as [Hmx _].
    pose proof (shl_align_fst my ey ez ltac:(unfold ez; lia)) as [Hmy _].
    set (X := cond_Zopp sx (Zpos (fst (shl_align mx ex ez)))).
    set (Y := cond_Zopp sy (Zpos (fst (shl_align my ey ez)))).
    assert (HX : X = mant sx mx * 2 ^ (ex - ez)).
    { unfold X, mant. rewrite Hmx. destruct sx; simpl; lia. }
    assert (HY : Y = mant sy my * 2 ^ (ey - ez)).
    { unfold Y, mant. rewrite Hmy. destruct sy; simpl; lia. }
    eapply dy_weaken;
      [| | | apply (binary_normalize_dy (X + Y) ez j (a + c) (b + d))];
      try (unfold ez; lia).
    assert (Hux : 2 ^ (- ez - j) = 2 ^ (- ex - j) * 2 ^ (ex - ez)).
    { rewrite <- pow2_split by (unfold ez; lia). f_equal; lia. }
    assert (Huy : 2 ^ (- ez - j) = 2 ^ (- ey - j) * 2 ^ (ey - ez)).
    { rewrite <- pow2_split by (unfold ez; lia). f_equal; lia. }
    pose proof (pow2_pos (ex - ez) ltac:(unfold ez; lia)).
    pose proof (pow2_pos (ey - ez) ltac:(unfold ez; lia)).
    rewrite HX, HY. split.
    + rewrite Z.mul_add_distr_r. apply Z.add_le_mono.
      * rewrite Hux. nia.
      * rewrite Huy. nia.
    + rewrite Z.mul_add_distr_r. apply Z.add_le_mono.
      * rewrite Hux. nia.
      * rewrite Huy. nia.
Qed.

(** ** Multiplication *)

Lemma mul_opp_l x y :
  x <> S754_nan -> y <> S754_nan ->
  mul (SFopp x) y = SFopp (mul x y).
Proof.
  intros Hx Hy. unfold mul.
  destruct x as [sx | sx | | sx mx ex]; try contradiction;
    destruct y as [sy | sy | | sy my ey]; try contradiction;
    cbn [SFmul SFopp]; try (destruct sx, sy; reflexivity).
  destruct sx, sy; cbn [xorb negb];
    rewrite ?binary_round_aux_opp; try reflexivity;
    destruct (binary_round_aux prec emax false _ _ _) as [[] | [] | | [] ? ?];
    reflexivity.
Qed.

Lemma mul_dy k1 j1 a b x k2 j2 c d y j L H :
  dy k1 j1 a b x -> dy k2 j2 c d y ->
  0 <= a -> 0 <= c ->
  -1000 <= k1 + k2 -> -900 <= j1 + j2 -> j <= j1 + j2 ->
  L * 2 ^ (j1 + j2 - j) <= a * c -> b * d <= H * 2 ^ (j1 + j2 - j) ->
  H < 2 ^ 53 ->
  dy (k1 + k2 + 52) j L H (mul x y).
Proof.
  intros Hx Hy Ha Hc Hk Hjj Hj HL HH HH53.
  pose proof (pow2_pos (j1 + j2 - j) ltac:(lia)) as HJ.
  assert (Hb : 0 <= b /\ 0 <= d).
  { destruct x as [sx | sx | | sx mx ex]; try contradiction;
      destruct y as [sy | sy | | sy my ey]; try contradiction;
      simpl in Hx, Hy;
      repeat match goal with
             | H : _ /\ _ |- _ => destruct H
             end;
      repeat match goal with
             | H : _ <= ?e + ?jj , H' : ?e + ?jj <= 0 |- _ => fail
             | H : ?e + ?jj <= 0 |- _ =>
                 lazymatch goal with
                 | _ : 0 < 2 ^ (- e - jj) |- _ => fail
                 | _ => pose proof (pow2_pos (- e - jj) ltac:(lia))
                 end
             end;
      split; try lia; nia. }
  destruct Hb as [Hb0 Hd0].
  destruct x as [sx | sx | | sx mx ex]; try contradiction;
    destruct y as [sy | sy | | sy my ey]; try contradiction;
    unfold mul; cbn [SFmul];
    try (cbn [dy] in Hx, Hy |- *;
         assert (a * c = 0) by nia; split; nia).
  destruct Hx as (Hcx & Hkx & Hjx & Hbx).
  destruct Hy as (Hcy & Hky & Hjy & Hby).
  pose proof (pow2_pos (- ex - j1) ltac:(lia)) as HU1.
  pose proof (pow2_pos (- ey - j2) ltac:(lia)) as HU2.
  assert (sx = false) by (apply (mant_pos_sign sx mx); nia).
  assert (sy = false) by (apply (mant_pos_sign sy my); nia).
  subst sx sy. change (mant false mx) with (Zpos mx) in *.
  change (mant false my) with (Zpos my) in *. cbn [xorb].
  assert (HP1 : 2 ^ 104 <= Zpos mx * Zpos my).
  { change (2 ^ 104) with (2 ^ 52 * 2 ^ 52). nia. }
  assert (HP2 : Zpos mx * Zpos my < 2 ^ 106).
  { change (2 ^ 106) with (2 ^ 53 * 2 ^ 53). nia. }
  pose proof (digits2_bounds (mx * my)) as [Hd1 Hd2].
  change (Zpos (mx * my)) with (Zpos mx * Zpos my) in Hd1, Hd2.
  assert (Hd : 105 <= Zpos (digits2_pos (mx * my)) <= 106).
  { split.
    - assert (104 < Zpos (digits2_pos (mx * my))); [| lia].
      apply pow2_lt_inv; lia.
    - assert (Zpos (digits2_pos (mx * my)) - 1 < 106); [| lia].
      apply pow2_lt_inv; lia. }
  assert (HU : 2 ^ (- (ex + ey) - j) =
               2 ^ (- ex - j1) * 2 ^ (- ey - j2) * 2 ^ (j1 + j2 - j)).
  { rewrite <- !pow2_split by lia. f_equal; lia. }
  assert (HLP : L * 2 ^ (- (ex + ey) - j) <= Zpos (mx * my)).
  { rewrite HU. change (Zpos (mx * my)) with (Zpos mx * Zpos my).
    transitivity (a * 2 ^ (- ex - j1) * (c * 2 ^ (- ey - j2))); [nia |].
    apply Z.mul_le_mono_nonneg; nia. }
  assert (HHP : Zpos (mx * my) <= H * 2 ^ (- (ex + ey) - j)).
  { rewrite HU. change (Zpos (mx * my)) with (Zpos mx * Zpos my).
    transitivity (b * 2 ^ (- ex - j1) * (d * 2 ^ (- ey - j2))); [| nia].
    apply Z.mul_le_mono_nonneg; nia. }
  assert (HHP' : Zpos (mx * my) < H * 2 ^ (- (ex + ey) - j) \/
                 (Zpos (mx * my) = H * 2 ^ (- (ex + ey) - j) /\
                  loc_Exact = loc_Exact)).
  { destruct (Z.eq_dec (Zpos (mx * my)) (H * 2 ^ (- (ex + ey) - j)));
      [right; split; [assumption | reflexivity] | left; lia]. }
  pose proof (binary_round_aux_bounds false (mx * my) (ex + ey) loc_Exact
                j L H) as Hr.
  cbv zeta in Hr.
  assert (Hr1 : 0 <= Zpos (digits2_pos (mx * my)) - 53) by lia.
  assert (Hr2 : -1074 <= ex + ey + (Zpos (digits2_pos (mx * my)) - 53))
    by lia.
  assert (Hr3 : ex + ey + (Zpos (digits2_pos (mx * my)) - 53) + 1 <= 971)
    by lia.
  assert (Hr4 : ex + ey + j <= 0) by lia.
  specialize (Hr Hr1 Hr2 Hr3 Hr4 HH53 HLP HHP').
  destruct Hr as (m & e & Heq & Hcm & He & Hej & Hbm).
  rewrite Heq. cbn [dy]. change (mant false m) with (Zpos m).
  repeat split; lia.
Qed.

(** ** Integers as numbers *)

Lemma ofZ_pos a :
  0 < a < 2 ^ 53 ->
  exists m e, ofZ a = S754_finite false m e /\
              2 ^ 52 <= Zpos m < 2 ^ 53 /\ -52 <= e <= 0 /\
              Zpos m = a * 2 ^ (- e).
Proof.
  intros Ha. pose proof (ofZ_dy a ltac:(lia)) as H.
  destruct (ofZ a) as [s | s | | s m e]; simpl in H; try contradiction.
  - lia.
  - destruct H as (Hc & He & Hej & Hb).
    replace (- e - 0) with (- e) in Hb by lia.
    pose proof (pow2_pos (- e) ltac:(lia)).
    assert (s = false) by (apply (mant_pos_sign s m); nia).
    subst s. change (mant false m) with (Zpos m) in Hb.
    exists m, e. repeat split; try lia.
Qed.

Lemma ofZ_zero : ofZ 0 = S754_zero false.
Proof. reflexivity. Qed.

(** ** Division *)

Lemma new_location_exact nb : new_location nb 0 = loc_Exact.
Proof.
  unfold new_location, new_location_even, new_location_odd.
  destruct (Z.even nb); reflexivity.
Qed.

Lemma div_opp_l x y :
  x <> S754_nan -> y <> S754_nan ->
  div (SFopp x) y = SFopp (div x y).
Proof.
  intros Hx Hy. unfold div.
  destruct x as [sx | sx | | sx mx ex]; try contradiction;
    destruct y as [sy | sy | | sy my ey]; try contradiction;
    cbn [SFdiv SFopp]; try (destruct sx, sy; reflexivity).
  destruct (SFdiv_core_binary prec emax (Zpos mx) ex (Zpos my) ey)
    as [[mz ez] lz].
  destruct sx, sy; cbn [xorb negb];
    rewrite ?binary_round_aux_opp; try reflexivity;
    destruct (binary_round_aux prec emax false _ _ _) as [[] | [] | | [] ? ?];
    reflexivity.
Qed.

(** The quotient of two positive integers below [2^53], enclosed between
    [L / 2^j] and [H / 2^j]. *)
Lemma div_ofZ_dy a c j L H :
  0 < a < 2 ^ 53 -> 0 < c < 2 ^ 53 -> 0 <= j ->
  L * c <= a * 2 ^ j -> a * 2 ^ j <= H * c -> H < 2 ^ 53 ->
  dy (-105) j L H (div (ofZ a) (ofZ c)).
Proof.
  intros Ha Hc Hj HL HH HH53.
  destruct (ofZ_pos a Ha) as (m1 & e1 & -> & Hc1 & He1 & Hm1).
  destruct (ofZ_pos c Hc) as (m2 & e2 & -> & Hc2 & He2 & Hm2).
  unfold div. cbn [SFdiv xorb]. unfold SFdiv_core_binary. cbn [Zdigits2].
  rewrite (digits2_unique m1 53), (digits2_unique m2 53) by (simpl; lia).
  rewrite fexp_normal by lia.
  replace (53 + e1 - (53 + e2) - 53) with (e1 - e2 - 53) by lia.
  rewrite Z.min_l by lia.
  replace (e1 - e2 - (e1 - e2 - 53)) with 53 by lia.
  rewrite Z.shiftl_mul_pow2 by lia.
  pose proof (Z_div_mod (Zpos m1 * 2 ^ 53) (Zpos m2) ltac:(lia)) as Hdm.
  destruct (Z.div_eucl (Zpos m1 * 2 ^ 53) (Zpos m2)) as [q r].
  destruct Hdm as [Hq Hr].
  set (A1 := 2 ^ (- e1)) in *. set (A2 := 2 ^ (- e2)) in *.
  set (J := 2 ^ j) in *.
  assert (HA1 : 0 < A1) by (apply pow2_pos; lia).
  assert (HA2 : 0 < A2) by (apply pow2_pos; lia).
  assert (HJ : 0 < J) by (apply pow2_pos; lia).
  assert (Hqlo : 2 ^ 52 <= q).
  { change (2 ^ 53) with (2 * 2 ^ 52) in *. nia. }
  assert (Hqhi : q < 2 ^ 54).
  { change (2 ^ 54) with (2 * 2 ^ 53). change (2 ^ 53) with (2 * 2 ^ 52) in *.
    nia. }
  destruct q as [| pq | pq]; try lia.
  (* the exponent of the quotient leaves room for the scale [j] *)
  set (e' := e1 - e2 - 53) in *.
  assert (Hej : e' + j <= 0).
  { destruct (Z.leb_spec (e' + j) 0) as [| Hgt]; [assumption | exfalso].
    assert (Hpow : 2 ^ (54 - e1) <= J * A2).
    { unfold A2, J. rewrite <- !pow2_split by lia.
      apply pow2_le. unfold e' in Hgt. lia. }
    assert (H54 : 2 ^ (54 - e1) = 2 ^ 54 * A1).
    { unfold A1. rewrite <- pow2_split by lia. f_equal; lia. }
    rewrite H54 in Hpow.
    assert (H1 : Zpos m1 * A2 * J <= H * Zpos m2 * A1).
    { rewrite Hm1, Hm2. nia. }
    assert (H0 : 0 < H) by nia.
    assert (H2 : H * Zpos m2 * A1 < 2 ^ 53 * 2 ^ 53 * A1).
    { apply Z.mul_lt_mono_pos_r; [lia |]. nia. }
    assert (H3 : 2 ^ 52 * (2 ^ 54 * A1) <= Zpos m1 * (J * A2)).
    { apply Z.mul_le_mono_nonneg; lia. }
    change (2 ^ 54) with (2 * 2 ^ 53) in H3.
    change (2 ^ 53) with (2 * 2 ^ 52) in *. nia. }
  set (U := 2 ^ (- e' - j)).
  assert (HU : 0 < U) by (apply pow2_pos; lia).
  assert (HUeq : U * A2 * J = 2 ^ 53 * A1).
  { unfold U, A1, A2, J. rewrite <- !pow2_split by lia. f_equal;
    unfold e'; lia. }
  assert (HLq : L * U <= Zpos pq).
  { assert (L * U * Zpos m2 <= Zpos m1 * 2 ^ 53).
    { rewrite Hm1, Hm2.
      replace (L * U * (c * A2)) with (L * c * (U * A2)) by ring.
      replace (a * A1 * 2 ^ 53) with (a * (2 ^ 53 * A1)) by ring.
      rewrite <- HUeq.
      replace (a * (U * A2 * J)) with (a * J * (U * A2)) by ring.
      apply Z.mul_le_mono_nonneg_r; nia. }
    destruct (Z.leb_spec (L * U) (Zpos pq)); [assumption | exfalso]. nia. }
  assert (HHq : Zpos m1 * 2 ^ 53 <= H * U * Zpos m2).
  { rewrite Hm1, Hm2.
    replace (H * U * (c * A2)) with (H * c * (U * A2)) by ring.
    replace (a * A1 * 2 ^ 53) with (a * (2 ^ 53 * A1)) by ring.
    rewrite <- HUeq.
    replace (a * (U * A2 * J)) with (a * J * (U * A2)) by ring.
    apply Z.mul_le_mono_nonneg_r; nia. }
  assert (HHq' : Zpos pq < H * U \/
                 (Zpos pq = H * U /\ new_location (Zpos m2) r = loc_Exact)).
  { destruct (Z.ltb_spec (Zpos pq) (H * U)) as [Hlt | Hge];
      [left; assumption | right].
    assert (r = 0) by nia. subst r.
    split; [nia | apply new_location_exact]. }
  pose proof (digits2_bounds pq) as [Hd1 Hd2].
  assert (Hd : 53 <= Zpos (digits2_pos pq) <= 54).
  { split.
    - assert (52 < Zpos (digits2_pos pq)); [| lia].
      apply pow2_lt_inv; lia.
    - assert (Zpos (digits2_pos pq) - 1 < 54); [| lia].
      apply pow2_lt_inv; lia. }
  pose proof (binary_round_aux_bounds false pq e'
                (new_location (Zpos m2) r) j L H) as Hb.
  cbv zeta in Hb. fold U in Hb.
  assert (Hb1 : 0 <= Zpos (digits2_pos pq) - 53) by lia.
  assert (Hb2 : -1074 <= e' + (Zpos (digits2_pos pq) - 53))
    by (unfold e'; lia).
  assert (Hb3 : e' + (Zpos (digits2_pos pq) - 53) + 1 <= 971)
    by (unfold e'; lia).
  specialize (Hb Hb1 Hb2 Hb3 Hej HH53 HLq HHq').
  destruct Hb as (m & e & Heq & Hcm & He & Hej' & Hbm).
  rewrite Heq. cbn [dy]. change (mant false m) with (Zpos m).
  unfold e' in He. repeat split; lia.
Qed.

(** ** Back to integers *)

Lemma trunc_dy k lo hi f : dy k 0 lo hi f -> lo <= trunc f <= hi.
Proof.
  destruct f as [s | s | | s m e]; simpl; try tauto.
  intros (Hc & Hk & He & Hb).
  replace (- e - 0) with (- e) in Hb by lia.
  pose proof (pow2_pos (- e) ltac:(lia)) as HU.
  destruct (Z.leb_spec 0 e) as [He0 | He0].
  - assert (e = 0) by lia. subst e. simpl in *. lia.
  - set (U := 2 ^ (- e)) in *.
    destruct (Z.leb_spec 0 (mant s m)) as [Hm | Hm].
    + rewrite Z.quot_div_nonneg by lia. split.
      * destruct (Z.leb_spec lo 0) as [Hlo0 | Hlo0].
        -- pose proof (Z.div_pos (mant s m) U Hm HU). lia.
        -- apply Z.div_le_lower_bound; lia.
      * apply Z.lt_succ_r, Z.div_lt_upper_bound; nia.
    + replace (mant s m) with (- (- mant s m)) by lia.
      rewrite Z.quot_opp_l by lia.
      rewrite Z.quot_div_nonneg by lia. split.
      * assert (- mant s m / U <= - lo); [| lia].
        apply Z.lt_succ_r, Z.div_lt_upper_bound; nia.
      * assert (- hi <= - mant s m / U); [| lia].
        destruct (Z.leb_spec 0 hi) as [Hhi0 | Hhi0].
        -- pose proof (Z.div_pos (- mant s m) U ltac:(lia) HU). lia.
        -- apply Z.div_le_lower_bound; lia.
Qed.

Lemma round_dy k lo hi f : dy k 0 lo hi f -> lo <= round f <= hi.
Proof.
  destruct f as [s | s | | s m e]; simpl; try tauto.
  intros (Hc & Hk & He & Hb).
  replace (- e - 0) with (- e) in Hb by lia.
  pose proof (pow2_pos (- e) ltac:(lia)) as HU.
  destruct (Z.leb_spec 0 e) as [He0 | He0].
  - assert (e = 0) by lia. subst e. simpl in *. lia.
  - rewrite (pow2_split (- e) 1) by lia. change (2 ^ 1) with 2.
    set (U := 2 ^ (- e)) in *. split.
    + apply Z.div_le_lower_bound; lia.
    + apply Z.lt_succ_r, Z.div_lt_upper_bound; lia.
Qed.

(** The ceiling is determined by an enclosure that holds no integer
    strictly inside, below its upper end. *)
Lemma ceil_dy k j lo hi f N :
  0 <= j -> dy k j lo hi f ->
  (N - 1) * 2 ^ j < lo -> hi <= N * 2 ^ j -> ceil f = N.
Proof.
  intros Hj Hf Hlo Hhi. pose proof (pow2_pos j Hj) as HJ.
  destruct f as [s | s | | s m e]; simpl in Hf |- *; try tauto.
  - nia.
  - destruct Hf as (Hc & Hk & He & Hb).
    pose proof (pow2_pos (- e - j) ltac:(lia)) as HW.
    assert (HV : 2 ^ (- e) = 2 ^ j * 2 ^ (- e - j)).
    { rewrite <- pow2_split by lia. f_equal; lia. }
    set (W := 2 ^ (- e - j)) in *. set (J := 2 ^ j) in *.
    destruct (Z.leb_spec 0 e) as [He0 | He0].
    + assert (e = 0) by lia. subst e. assert (j = 0) by lia. subst j.
      simpl in *. unfold W, J in *. simpl in *. lia.
    + rewrite HV.
      assert (- mant s m / (J * W) = - N); [| lia].
      symmetry. apply Z.div_unique with (N * (J * W) - mant s m); nia.
Qed.

Lemma ceil_opp_floor k j lo hi f N :
  0 <= j -> dy k j lo hi f ->
  N * 2 ^ j <= lo -> hi < (N + 1) * 2 ^ j -> ceil (SFopp f) = - N.
Proof.
  intros Hj Hf Hlo Hhi.
  apply (ceil_dy k j (- hi) (- lo)); [assumption | now apply dy_opp | |]; lia.
Qed.

End JsNumFacts.

(** ** Sorting *)

Lemma SessionType_eqb_eq a b : SessionType_eqb a b = true <-> a = b.
Proof. destruct a, b; simpl; split; congruence. Qed.




Lemma insertByDate_perm x l : Permutation (insertByDate x l) (x :: l).
Proof.
  induction l as [| y l IH]; simpl; [reflexivity |].
  destruct (date x <=? date y); [reflexivity |].
  rewrite IH. apply perm_swap.
Qed.

Lemma sortByDate_perm l : Permutation (sortByDate l) l.
Proof.
  induction l as [| x l IH]; simpl; [reflexivity |].
  rewrite insertByDate_perm. now constructor.
Qed.

Lemma insertByDate_ascending x l :
  ascending l -> ascending (insertByDate x l).
Proof.
  unfold ascending. induction 1 as [| y l Hl IH Hy]; simpl.
  - repeat constructor.
  - destruct (date x <=? date y) eqn:E.
    + constructor; [now constructor |].
      constructor; [lia |].
      eapply Forall_impl; [exact Hy |]. simpl. intros. lia.
    + constructor; [exact IH |].
      eapply Permutation_Forall.
      { symmetry. apply insertByDate_perm. }
      constructor; [lia | exact Hy].
Qed.

Lemma sortByDate_ascending l : ascending (sortByDate l).
Proof.
  induction l as [| x l IH]; simpl.
  - constructor.
  - now apply insertByDate_ascending.
Qed.

Lemma sortByDate_length l : length (sortByDate l) = length l.
Proof. apply Permutation_length, sortByDate_perm. Qed.

(** Already sorted lists are left as they are (the sort is stable). *)
Lemma sortByDate_fixed l : ascending l -> sortByDate l = l.
Proof.
  unfold ascending. induction 1 as [| x l Hl IH Hx]; simpl; [reflexivity |].
  rewrite IH. destruct l as [| y l']; simpl; [reflexivity |].
  inversion Hx; subst.
  destruct (date x <=? date y) eqn:E; [reflexivity | lia].
Qed.

Lemma ascending_alter_same_date (f : ReviewSession -> ReviewSession) i l :
  (forall r, date (f r) = date r) -> ascending l -> ascending (alter f i l).
Proof.
  intros Hf. unfold ascending. intros H. revert i.
  induction H as [| x l Hl IH Hx]; intros i; simpl; [constructor |].
  destruct i as [| i]; simpl.
  - constructor; [exact Hl |]. rewrite Hf. exact Hx.
  - constructor; [apply IH |].
    clear -Hx Hf. revert i. induction Hx as [| y l Hy Hl IH]; intros i.
    + constructor.
    + destruct i; simpl; constructor; auto. now rewrite Hf.
Qed.

(** ** The schedule loop *)

Lemma addDays_shift rd k delta : addDays (rd + delta) k = addDays rd k + delta.
Proof. unfold addDays. lia. Qed.

(** Without an exam date the loop commutes with a translation in time. *)
Lemma scheduleLoop_shift delta n m iv rd acc :
  scheduleLoop n None m iv (rd + delta) (map (shift delta) acc) =
  map (shift delta) (scheduleLoop n None m iv rd acc).
Proof.
  revert iv rd acc. induction n as [| n IH]; intros iv rd acc; simpl.
  - reflexivity.
  - rewrite addDays_shift, <- IH. f_equal.
    rewrite map_app, length_map. reflexivity.
Qed.

(** The loop only ever pushes to the array it is given. *)
Lemma scheduleLoop_extends n ex m iv rd acc :
  exists k, scheduleLoop n ex m iv rd acc = acc ++ k.
Proof.
  revert iv rd acc. induction n as [| n IH]; intros iv rd acc; simpl.
  - exists []. now rewrite app_nil_r.
  - destruct (pastExam ex rd).
    + exists []. now rewrite app_nil_r.
    + edestruct IH as [k Hk]. rewrite Hk, <- app_assoc. eauto.
Qed.


(** The loop emits nothing exactly when the exam precedes the first
    candidate date. *)
Lemma scheduleLoop_nil e n m iv rd :
  scheduleLoop (S n) (Some e) m iv rd [] = [] <-> e < rd.
Proof.
  cbn [scheduleLoop pastExam]. destruct (e <? rd) eqn:E.
  - split; [lia | reflexivity].
  - split; [| lia]. intros H.
    edestruct (scheduleLoop_extends n (Some e)) as [k Hk].
    rewrite Hk in H. destruct k; discriminate.
Qed.

Lemma scheduleLoop_length n ex m iv rd acc :
  (length (scheduleLoop n ex m iv rd acc) <= length acc + n)%nat.
Proof.
  revert iv rd acc. induction n as [| n IH]; intros iv rd acc; simpl.
  - lia.
  - destruct (pastExam ex rd); [lia |].
    etransitivity; [apply IH |]. rewrite length_app. simpl. lia.
Qed.








Lemma generateSchedule_base now c :
  generateSchedule now c None = map (shift (addDays now 1)) (baseSchedule c).
Proof.
  unfold generateSchedule, baseSchedule.
  rewrite <- scheduleLoop_shift. reflexivity.
Qed.


(** ** [findIndex] *)

Lemma findIndexFrom_Some {A} (p : nat -> A -> bool) l i j :
  findIndexFrom p i l = Some j ->
  exists k x, j = (i + k)%nat /\ l !! k = Some x /\ p j x = true /\
    forall k' y, (k' < k)%nat -> l !! k' = Some y -> p (i + k')%nat y = false.
Proof.
  revert i. induction l as [| a l IH]; intros i; simpl; [discriminate |].
  destruct (p i a) eqn:E.
  - intros [= <-]. exists 0%nat, a. rewrite Nat.add_0_r.
    repeat split; auto. intros; lia.
  - intros H. apply IH in H as (k & x & -> & Hk & Hp & Hmin).
    exists (S k), x. repeat split; auto.
    intros [| k'] y Hlt Hy; simpl in Hy.
    + injection Hy as <-. now rewrite Nat.add_0_r.
    + replace (i + S k')%nat with (S i + k')%nat by lia.
      apply Hmin; [lia | exact Hy].
Qed.

Lemma findIndexFrom_None {A} (p : nat -> A -> bool) l i :
  findIndexFrom p i l = None <->
  forall k y, l !! k = Some y -> p (i + k)%nat y = false.
Proof.
  revert i. induction l as [| a l IH]; intros i; simpl.
  - split; [intros _ k y Hk; destruct k; discriminate | reflexivity].
  - destruct (p i a) eqn:E.
    + split; [discriminate |]. intros H.
      specialize (H 0%nat a eq_refl). rewrite Nat.add_0_r in H. congruence.
    + rewrite IH. split; intros H k y Hk.
      * destruct k as [| k]; simpl in Hk.
        -- injection Hk as <-. now rewrite Nat.add_0_r.
        -- replace (i + S k)%nat with (S i + k)%nat by lia. now apply H.
      * replace (S i + k)%nat with (i + S k)%nat by lia. now apply H.
Qed.

Lemma findIndex_Some {A} (p : nat -> A -> bool) l j :
  findIndex p l = Some j ->
  exists x, l !! j = Some x /\ p j x = true /\
    forall k y, (k < j)%nat -> l !! k = Some y -> p k y = false.
Proof.
  intros H. apply findIndexFrom_Some in H as (k & x & -> & Hk & Hp & Hmin).
  exists x. simpl in *. auto.
Qed.

Lemma findIndex_None {A} (p : nat -> A -> bool) l :
  findIndex p l = None <-> forall k y, l !! k = Some y -> p k y = false.
Proof. apply findIndexFrom_None. Qed.

(** ** Completion: shape of the result *)

Lemma reviews_completeReview now d rt t i :
  findIndex (fun _ r => date r =? d) (reviews t) = Some i ->
  reviews (completeReview now d rt t) =
  reschedule now rt i (alter (complete now rt) i (reviews t)).
Proof. intros H. unfold completeReview. now rewrite H. Qed.

Lemma completeReview_stale now d rt t :
  findIndex (fun _ r => date r =? d) (reviews t) = None ->
  completeReview now d rt t = t.
Proof. intros H. unfold completeReview. now rewrite H. Qed.


Lemma existsOnDay_perm day l l' :
  Permutation l l' -> existsOnDay day l = existsOnDay day l'.
Proof.
  unfold existsOnDay. induction 1; simpl; try congruence.
  now rewrite !orb_assoc, (orb_comm (dayOf (date y) =? day)).
Qed.

Lemma existsOnDay_app day l k :
  existsOnDay day (l ++ k) = existsOnDay day l || existsOnDay day k.
Proof. apply existsb_app. Qed.

Lemma reschedule_ascending now rt i l :
  ascending l -> ascending (reschedule now rt i l).
Proof.
  intros Hl. unfold reschedule. destruct rt.
  - destruct (existsOnDay _ _); [exact Hl | apply sortByDate_ascending].
  - exact Hl.
  - destruct (findIndex _ _); [apply sortByDate_ascending | exact Hl].
Qed.

Lemma completeReview_ascending now d rt t :
  ascending (reviews t) -> ascending (reviews (completeReview now d rt t)).
Proof.
  intros Hl. unfold completeReview.
  destruct (findIndex _ _) as [i |]; [| exact Hl]. simpl.
  apply reschedule_ascending, ascending_alter_same_date; auto.
Qed.

(** After a [hard] completion that found its session, some session falls
    on the day after [now]. *)
Lemma reschedule_hard_exists now i l :
  existsOnDay (dayOf (addDays now 1)) (reschedule now hard i l) = true.
Proof.
  unfold reschedule. destruct (existsOnDay _ l) eqn:E; [exact E |].
  rewrite (existsOnDay_perm _ _ _ (sortByDate_perm _)), existsOnDay_app.
  unfold existsOnDay at 2. simpl. rewrite Z.eqb_refl. apply orb_true_r.
Qed.

Lemma reschedule_hard_length now i l :
  length (reschedule now hard i l) =
  if existsOnDay (dayOf (addDays now 1)) l then length l else S (length l).
Proof.
  unfold reschedule. destruct (existsOnDay _ l); [reflexivity |].
  rewrite sortByDate_length, length_app. simpl. lia.
Qed.

Lemma dayOf_addDays t n : dayOf (addDays t n) = dayOf t + n.
Proof.
  unfold dayOf, addDays. apply Z.div_add. unfold msPerDay. lia.
Qed.

(** ** The heatmap tally *)

Lemma bump_lookup (m : gmap Z nat) d k :
  default 0%nat (bump m d !! k) =
  (default 0%nat (m !! k) + if (d =? k)%Z then 1 else 0)%nat.
Proof.
  unfold bump. rewrite lookup_insert. destruct (decide (d = k)) as [-> | Hne].
  - rewrite Z.eqb_refl. reflexivity.
  - apply Z.eqb_neq in Hne. rewrite Hne. simpl. lia.
Qed.

Lemma tallyReview_lookup (m : gmap Z nat) r k :
  default 0%nat (tallyReview m r !! k) =
  (default 0%nat (m !! k) + if countsOn k r then 1 else 0)%nat.
Proof.
  unfold tallyReview, countsOn. destruct (completed r); simpl.
  - apply bump_lookup.
  - lia.
Qed.

Lemma tallyReviews_lookup rs (m : gmap Z nat) k :
  default 0%nat (foldl tallyReview m rs !! k) =
  (default 0%nat (m !! k) + length (List.filter (countsOn k) rs))%nat.
Proof.
  revert m. induction rs as [| r rs IH]; intros m; simpl.
  - lia.
  - rewrite IH, tallyReview_lookup. destruct (countsOn k r); simpl; lia.
Qed.

Lemma tallyTopics_lookup topics (m : gmap Z nat) k :
  default 0%nat (foldl tallyTopic m topics !! k) =
  (default 0%nat (m !! k) + activityCount k topics)%nat.
Proof.
  unfold activityCount. revert m.
  induction topics as [| t topics IH]; intros m; simpl.
  - lia.
  - rewrite IH. unfold tallyTopic. rewrite tallyReviews_lookup.
    rewrite List.filter_app, length_app. lia.
Qed.

Lemma tally_lookup topics k :
  default 0%nat (tally topics !! k) = activityCount k topics.
Proof.
  unfold tally. rewrite tallyTopics_lookup, lookup_empty. reflexivity.
Qed.

Lemma gridLoop_lookup now m n i :
  (i < n)%nat -> gridLoop now m n !! i = Some (cellAt now m (n - 1 - i)).
Proof.
  revert i. induction n as [| n IH]; intros i Hi; [lia |].
  destruct i as [| i]; cbn [gridLoop lookup list_lookup].
  - do 2 f_equal. lia.
  - rewrite IH by lia. do 2 f_equal. lia.
Qed.

Lemma gridLoop_length now m n : length (gridLoop now m n) = n.
Proof. induction n; simpl; congruence. Qed.

Lemma intensityOf_table n : intensityOf n = intensityTable n.
Proof.
  unfold intensityOf, intensityTable.
  repeat match goal with
         | |- context [(?a <? ?b)%nat] => destruct (Nat.ltb_spec a b)
         | |- context [(?a <=? ?b)%nat] => destruct (Nat.leb_spec a b)
         | |- context [(?a =? ?b)%nat] => destruct (Nat.eqb_spec a b)
         end; lia.
Qed.

(** * The claims *)





(** C9. Completing a review whose target date matches no session of the
    targeted topic returns the collection unchanged, and so does deleting
    a topic id that is not in the collection. *)
Theorem stale_reference_noop now topicId reviewDate rt confirmed topics :
  (Forall (fun t => id t = topicId ->
                    Forall (fun r => date r <> reviewDate) (reviews t))
          topics ->
   markReviewComplete now topicId reviewDate rt topics = topics) /\
  (Forall (fun t => id t <> topicId) topics ->
   deleteTopic confirmed topicId topics = topics).
Proof.
  split.
  - unfold markReviewComplete. induction 1 as [| t topics Ht _ IH]; simpl.
    + reflexivity.
    + rewrite IH. f_equal.
      destruct (String.eqb_spec (id t) topicId) as [Heq | Hne]; simpl;
        [| reflexivity].
      apply completeReview_stale, findIndex_None. intros k y Hk.
      specialize (Ht Heq). rewrite Forall_forall in Ht.
      apply Z.eqb_neq, Ht. eapply list_elem_of_lookup_2, Hk.
  - unfold deleteTopic. destruct confirmed; [| reflexivity].
    induction 1 as [| t topics Ht _ IH]; simpl; [reflexivity |].
    destruct (String.eqb_spec (id t) topicId) as [Heq | Hne]; simpl;
      [contradiction | now rewrite IH].
Qed.

(** ** Frame of a completion *)

Lemma completeReview_sameIdentity now d rt t :
  sameIdentity t (completeReview now d rt t).
Proof.
  unfold completeReview, sameIdentity.
  destruct (findIndex _ _); simpl; repeat split; reflexivity.
Qed.

(** C10. [markReviewComplete] leaves every topic with another id as it
    is, and on the targeted topic leaves id, name, addedDate, examDate,
    complexity, subtopics, summary and notes unchanged. *)
Theorem markReviewComplete_frame now topicId reviewDate rt topics :
  Forall2 (fun t t' => (id t <> topicId -> t' = t) /\ sameIdentity t t')
          topics (markReviewComplete now topicId reviewDate rt topics).
Proof.
  unfold markReviewComplete.
  induction topics as [| t topics IH]; simpl; constructor; [| exact IH].
  destruct (String.eqb_spec (id t) topicId) as [Heq | Hne]; simpl.
  - split; [intros; contradiction | apply completeReview_sameIdentity].
  - split; [reflexivity |]. unfold sameIdentity. repeat split; reflexivity.
Qed.

Lemma stale_reference_noop_witness :
  markReviewComplete sampleNow "t1" 5 good [sampleTopic] = [sampleTopic] /\
  deleteTopic true "t2" [sampleTopic] = [sampleTopic].
Proof.
  split.
  - apply (stale_reference_noop sampleNow "t1" 5 good true [sampleTopic]).
    repeat constructor; simpl; lia.
  - apply (stale_reference_noop sampleNow "t2" 5 good true [sampleTopic]).
    repeat constructor. simpl. discriminate.
Defined.

(** ** Outcomes under completion *)

Lemma outcomeKept_refl r : outcomeKept r r.
Proof. repeat split. Qed.

Lemma Forall2_marked now d rt i rs :
  (forall x, rs !! i = Some x -> date x = d) ->
  Forall2 (fun r r' => outcomeKept r r' \/
                       (date r = d /\ r' = complete now rt r))
          rs (alter (complete now rt) i rs).
Proof.
  revert i. induction rs as [| x rs IH]; intros i Hi; [constructor |].
  destruct i as [| i]; simpl.
  - constructor.
    + right. split; [now apply Hi | reflexivity].
    + apply Forall2_same_length_lookup. split; [reflexivity |].
      intros k a b Ha Hb. left. replace b with a by congruence.
      apply outcomeKept_refl.
  - constructor.
    + left. apply outcomeKept_refl.
    + apply IH. intros y Hy. now apply Hi.
Qed.

(** C2, as the code has it.  After any completion the review list is, up
    to order, the old list followed by newly inserted pending sessions,
    where every old session either keeps its completion state, rating and
    completion date, or carries the target date and is stamped with the
    new rating and [now]: a completion date is never cleared, and only a
    completion aimed at a session's own date overwrites its outcome. *)
Theorem completion_outcomes now d rt t :
  exists kept added,
    Permutation (reviews (completeReview now d rt t)) (kept ++ added) /\
    Forall2 (fun r r' => outcomeKept r r' \/
                         (date r = d /\ r' = complete now rt r))
            (reviews t) kept /\
    Forall (fun r => completed r = false) added.
Proof.
  destruct (findIndex (fun _ r => date r =? d) (reviews t)) as [i |] eqn:E.
  - rewrite (reviews_completeReview _ _ _ _ _ E).
    assert (Hmarked := Forall2_marked now d rt i (reviews t)).
    apply findIndex_Some in E as (x & Hx & Hdx & _).
    assert (Hi : forall y, reviews t !! i = Some y -> date y = d).
    { intros y Hy. replace y with x by congruence. lia. }
    specialize (Hmarked Hi).
    set (marked := alter (complete now rt) i (reviews t)) in *.
    unfold reschedule. destruct rt.
    + destruct (existsOnDay _ marked).
      * exists marked, []. rewrite app_nil_r. auto.
      * exists marked, [pending (addDays now 1) 1 recovery].
        split; [apply sortByDate_perm |]. split; [exact Hmarked |].
        repeat constructor.
    + exists marked, []. rewrite app_nil_r. auto.
    + destruct (findIndex _ marked) as [j |] eqn:Ej.
      * exists (alter (stretch now) j marked), []. rewrite app_nil_r.
        split; [apply sortByDate_perm |]. split; [| constructor].
        apply Forall2_alter_r; [exact Hmarked |].
        intros r y _ Hy [Hkept | [_ ->]].
        -- left. exact Hkept.
        -- apply findIndex_Some in Ej as (y' & Hy' & Hp & _).
           rewrite Hy in Hy'. injection Hy' as <-.
           unfold isNextCandidate in Hp. simpl in Hp.
           rewrite andb_false_r in Hp. discriminate.
      * exists marked, []. rewrite app_nil_r. auto.
  - rewrite (completeReview_stale _ _ _ _ E).
    exists (reviews t), []. rewrite app_nil_r.
    split; [reflexivity |]. split; [| constructor].
    apply Forall2_same_length_lookup. split; [reflexivity |].
    intros k a b Ha Hb. left. replace b with a by congruence.
    apply outcomeKept_refl.
Qed.

(** C2, as stated, fails: completing the same session date a second time
    overwrites the stored rating and completion date. *)
Lemma outcome_overwritten :
  ~ outcomesFrozenBy (sampleNow + 3600000) 1700086400000 good
      (completeReview sampleNow 1700086400000 hard sampleTopic).
Proof.
  intros H.
  destruct (H (complete sampleNow hard (pending 1700086400000 1 initial)))
    as (r' & Hin & _ & Hr & _).
  - left. reflexivity.
  - reflexivity.
  - vm_compute in Hin. destruct Hin as [<- | [<- | []]]; discriminate.
Qed.

(** ** Arithmetic of the engine, exactly *)

Lemma lit_13_10 : JsNum.lit 13 10 = S754_finite false 5854679515581645 (-52).
Proof. vm_compute. reflexivity. Qed.

Lemma lit_13_10_dy :
  dy (-52) 52 5854679515581645 5854679515581645 (JsNum.lit 13 10).
Proof. rewrite lit_13_10. vm_compute. intuition discriminate. Qed.

(** Inside +-2^51 ms, [ceilDays] is the exact ceiling of the quotient by
    one day. *)
Lemma ceilDays_exact diff :
  - 2 ^ 51 < diff < 2 ^ 51 -> ceilDays diff = - ((- diff) / msPerDay).
Proof.
  intros Hd. unfold ceilDays.
  assert (HD : msPerDay = 86400000) by reflexivity.
  destruct (Z.lt_trichotomy diff 0) as [Hneg | [-> | Hpos]].
  - set (g := - diff). replace diff with (- g) by (unfold g; lia).
    destruct (JsNumFacts.ofZ_pos g ltac:(unfold g; lia))
      as (m & e & Hg & _).
    rewrite JsNumFacts.ofZ_opp by (unfold g; lia).
    rewrite JsNumFacts.div_opp_l;
      [| rewrite Hg; discriminate | vm_compute; discriminate].
    pose proof (Z.div_mod g msPerDay ltac:(lia)) as Hdm.
    pose proof (Z.mod_pos_bound g msPerDay ltac:(lia)) as Hmb.
    set (N := g / msPerDay) in *. rewrite HD in *.
    apply (JsNumFacts.ceil_opp_floor (-105) 28 (N * 2 ^ 28)
             ((N + 1) * 2 ^ 28 - 1)); try lia.
    apply JsNumFacts.div_ofZ_dy; unfold g in *; lia.
  - vm_compute. reflexivity.
  - pose proof (Z.div_mod (- diff) msPerDay ltac:(lia)) as Hdm.
    pose proof (Z.mod_pos_bound (- diff) msPerDay ltac:(lia)) as Hmb.
    set (N := - (- diff / msPerDay)) in *.
    replace (- diff / msPerDay) with (- N) in Hdm by (unfold N; lia).
    rewrite HD in *.
    apply (JsNumFacts.ceil_dy (-105) 28 ((N - 1) * 2 ^ 28 + 1)
             (N * 2 ^ 28)); try lia.
    apply JsNumFacts.div_ofZ_dy; lia.
Qed.

(** The percentage [Math.round((g / c) * 100)] stays between 0 and 100. *)
Lemma percent_bounds g c :
  0 <= g <= c -> 0 < c < 2 ^ 53 ->
  0 <= JsNum.round
         (JsNum.mul (JsNum.div (JsNum.ofZ g) (JsNum.ofZ c)) (JsNum.ofZ 100))
    <= 100.
Proof.
  intros Hg Hc.
  apply (JsNumFacts.round_dy (-105 + -52 + 52)).
  eapply (JsNumFacts.mul_dy (-105) 0 0 1 _ (-52) 0 100 100 _ 0 0 100);
    try lia.
  - destruct (Z.eq_dec g 0) as [-> | Hg0].
    + destruct (JsNumFacts.ofZ_pos c Hc) as (m & e & -> & _).
      simpl. lia.
    + apply JsNumFacts.div_ofZ_dy; lia.
  - apply JsNumFacts.ofZ_dy. lia.
Qed.

Lemma filter_length_le {A} (p q : A -> bool) l :
  (forall x, p x = true -> q x = true) ->
  (length (List.filter p l) <= length (List.filter q l))%nat.
Proof.
  intros Hpq. induction l as [| x l IH]; simpl; [lia |].
  destruct (p x) eqn:Ep.
  - rewrite (Hpq x Ep). simpl. lia.
  - destruct (q x); simpl; lia.
Qed.

Lemma masteryOf_bounds rs :
  Z.of_nat (length rs) < 2 ^ 53 -> 0 <= masteryOf rs <= 100.
Proof.
  intros Hlen. unfold masteryOf.
  set (c := length (List.filter completed rs)).
  set (g := length (List.filter _ rs)).
  assert (Hgc : (g <= c)%nat).
  { apply filter_length_le. intros x Hx.
    now apply andb_prop in Hx as [Hx _]. }
  assert (Hc : (c <= length rs)%nat) by apply List.filter_length_le.
  destruct (Nat.ltb_spec 0 c) as [Hpos | Hzero]; [| lia].
  apply percent_bounds; lia.
Qed.

(** The stretched gap: the double-precision product by 1.3 of a gap of
    [gap] ms lies between the integer part of [1.3 * gap] and the next
    integer (towards the outside for negative gaps). *)
Lemma newDiff_dy now old :
  - 2 ^ 51 < old - now < 2 ^ 51 ->
  let gap := old - now in
  if 0 <=? gap then
    dy (-52) 0 (13 * gap / 10) (13 * gap / 10 + 1) (newDiff now old)
  else
    dy (-52) 0 (- (13 * (- gap) / 10) - 1) (- (13 * (- gap) / 10))
       (newDiff now old).
Proof.
  intros Hgap gap. unfold newDiff. fold gap.
  assert (Hpos : forall g, 0 <= g < 2 ^ 51 ->
            dy (-52) 0 (13 * g / 10) (13 * g / 10 + 1)
               (JsNum.mul (JsNum.ofZ g) (JsNum.lit 13 10))).
  { intros g Hg.
    pose proof (Z.div_mod (13 * g) 10 ltac:(lia)) as Hdm.
    pose proof (Z.mod_pos_bound (13 * g) 10 ltac:(lia)) as Hmb.
    set (t := 13 * g / 10) in *.
    eapply (JsNumFacts.mul_dy (-52) 0 g g _ (-52) 52
              5854679515581645 5854679515581645 _ 0 t (t + 1));
      [apply JsNumFacts.ofZ_dy; lia | apply lit_13_10_dy | ..];
      try lia;
      change (2 ^ (0 + 52 - 0)) with 4503599627370496;
      change (2 ^ 51) with 2251799813685248 in *;
      change (2 ^ 53) with 9007199254740992 in *; lia. }
  destruct (Z.leb_spec 0 gap) as [H0 | H0].
  - apply Hpos. lia.
  - set (g := - gap). replace gap with (- g) by (unfold g; lia).
    destruct (JsNumFacts.ofZ_pos g ltac:(unfold g; lia))
      as (m & e & Hg & _).
    rewrite JsNumFacts.ofZ_opp by (unfold g; lia).
    rewrite JsNumFacts.mul_opp_l;
      [| rewrite Hg; discriminate | rewrite lit_13_10; discriminate].
    replace (- (13 * g / 10) - 1) with (- (13 * g / 10 + 1)) by lia.
    apply JsNumFacts.dy_opp, Hpos. unfold g. lia.
Qed.

(** Within 2^50 ms of the epoch, the stretched date is within one
    millisecond of [now + 1.3 * (old - now)]: it is [now] plus the integer
    part of [1.3 * gap], or one millisecond further from [now]. *)
Lemma stretchedDate_bounds now old :
  - 2 ^ 50 < now < 2 ^ 50 -> - 2 ^ 50 < old < 2 ^ 50 ->
  let gap := old - now in
  if 0 <=? gap then
    now + 13 * gap / 10 <= stretchedDate now old <= now + 13 * gap / 10 + 1
  else
    now - 13 * (- gap) / 10 - 1 <= stretchedDate now old
      <= now - 13 * (- gap) / 10.
Proof.
  intros Hnow Hold gap.
  change (2 ^ 50) with 1125899906842624 in *.
  pose proof (newDiff_dy now old) as Hp. cbv zeta in Hp. fold gap in Hp.
  change (2 ^ 51) with 2251799813685248 in Hp.
  specialize (Hp ltac:(unfold gap; lia)).
  assert (Hn : dy (-52) 0 now now (JsNum.ofZ now)).
  { apply JsNumFacts.ofZ_dy. change (2 ^ 53) with 9007199254740992. lia. }
  unfold stretchedDate. revert Hp.
  destruct (Z.leb_spec 0 gap) as [H0 | H0]; intros Hp.
  - pose proof (Z.div_mod (13 * gap) 10 ltac:(lia)) as Hdm.
    pose proof (Z.mod_pos_bound (13 * gap) 10 ltac:(lia)) as Hmb.
    set (t := 13 * gap / 10) in *.
    pose proof (JsNumFacts.add_dy (-52) 0 now now t (t + 1)
                  (JsNum.ofZ now) (newDiff now old)) as Hs.
    change (2 ^ 53) with 9007199254740992 in Hs.
    specialize (Hs ltac:(lia) ltac:(lia) ltac:(unfold gap in *; lia)
                   ltac:(unfold gap in *; lia) Hn Hp).
    apply JsNumFacts.trunc_dy in Hs. lia.
  - pose proof (Z.div_mod (13 * - gap) 10 ltac:(lia)) as Hdm.
    pose proof (Z.mod_pos_bound (13 * - gap) 10 ltac:(lia)) as Hmb.
    set (t := 13 * - gap / 10) in *.
    pose proof (JsNumFacts.add_dy (-52) 0 now now (- t - 1) (- t)
                  (JsNum.ofZ now) (newDiff now old)) as Hs.
    change (2 ^ 53) with 9007199254740992 in Hs.
    specialize (Hs ltac:(lia) ltac:(lia) ltac:(unfold gap in *; lia)
                   ltac:(unfold gap in *; lia) Hn Hp).
    apply JsNumFacts.trunc_dy in Hs. lia.
Qed.

(** A session due exactly [now] keeps its date. *)
Lemma stretchedDate_due now :
  - 2 ^ 53 < now < 2 ^ 53 -> stretchedDate now now = now.
Proof.
  intros Hnow. unfold stretchedDate, newDiff.
  replace (now - now) with 0 by lia. rewrite lit_13_10.
  change (JsNum.mul (JsNum.ofZ 0) (S754_finite false 5854679515581645 (-52)))
    with (S754_zero false).
  pose proof (JsNumFacts.ofZ_dy now Hnow) as Hn.
  assert (Hadd : dy (-52) 0 now now
                   (JsNum.add (JsNum.ofZ now) (S754_zero false))).
  { destruct (JsNum.ofZ now) as [[|] | [|] | | sn mn en];
      try contradiction; exact Hn. }
  apply JsNumFacts.trunc_dy in Hadd. lia.
Qed.

(** ** The easy stretch *)

Lemma alter_lookup_insert {A} (f : A -> A) j (l : list A) x :
  l !! j = Some x -> alter f j l = <[j := f x]> l.
Proof.
  revert j. induction l as [| a l IH]; intros [| j] H; simpl in *;
    try discriminate.
  - now injection H as ->.
  - f_equal. now apply IH.
Qed.

(** C1, as the code has it.  An [easy] completion replaces the first
    pending non-final session after the completed one (by list order).
    Its new date is [now + 1.3 * gap] evaluated in double precision and
    truncated to a whole millisecond, [gap] being the old date minus
    [now]; for times within 2^50 ms of the epoch that is within one
    millisecond of [now + 1.3 * gap], strictly later than the old date
    when the session is due at least 4 ms after [now], and not later when
    it is due or overdue.  Its interval is the ceiling in days of the
    double-precision product; the other fields are kept and the list is
    sorted again. *)
Theorem easy_stretch now d t i j r :
  findIndex (fun _ x => date x =? d) (reviews t) = Some i ->
  findIndex (isNextCandidate i)
    (alter (complete now easy) i (reviews t)) = Some j ->
  reviews t !! j = Some r ->
  - 2 ^ 50 < now < 2 ^ 50 -> - 2 ^ 50 < date r < 2 ^ 50 ->
  let r' := stretch now r in
  let gap := date r - now in
  (i < j)%nat /\ completed r = false /\ type r <> final /\
  (forall k x, (i < k < j)%nat -> reviews t !! k = Some x ->
               completed x = true \/ type x = final) /\
  reviews (completeReview now d easy t) =
    sortByDate (<[j := r']> (alter (complete now easy) i (reviews t))) /\
  In r' (reviews (completeReview now d easy t)) /\
  date r' = JsNum.trunc (JsNum.add (JsNum.ofZ now) (newDiff now (date r))) /\
  interval r' =
    JsNum.ceil (JsNum.div (newDiff now (date r)) (JsNum.ofZ msPerDay)) /\
  completed r' = false /\ type r' = type r /\ rating r' = rating r /\
  13 * gap - 10 <= 10 * (date r' - now) <= 13 * gap + 10 /\
  (4 <= gap -> date r < date r') /\
  (gap <= 0 -> date r' <= date r).
Proof.
  intros Hi Hj Hr Hnow Hold r' gap.
  set (marked := alter (complete now easy) i (reviews t)) in *.
  pose proof (findIndex_Some _ _ _ Hj) as (x & Hx & Hp & Hmin).
  unfold isNextCandidate in Hp.
  apply andb_prop in Hp as [Hp Hty]. apply andb_prop in Hp as [Hij Hpend].
  apply Nat.ltb_lt in Hij.
  assert (Hne : forall k, k <> i -> marked !! k = reviews t !! k).
  { intros k Hk. unfold marked. apply list_lookup_alter_ne. lia. }
  rewrite Hne, Hr in Hx by lia. injection Hx as <-.
  assert (Hrs : reviews (completeReview now d easy t) =
                sortByDate (<[j := r']> marked)).
  { rewrite (reviews_completeReview _ _ _ _ _ Hi). fold marked.
    unfold reschedule. rewrite Hj. f_equal.
    apply alter_lookup_insert. now rewrite Hne, Hr by lia. }
  pose proof (stretchedDate_bounds now (date r) Hnow Hold) as Hb.
  cbv zeta in Hb. fold gap in Hb.
  assert (Hdate : date r' = stretchedDate now (date r)) by reflexivity.
  split; [exact Hij |].
  split; [now apply negb_true_iff in Hpend |].
  split.
  { intros E. rewrite E in Hty. discriminate. }
  split.
  { intros k y Hk Hy.
    specialize (Hmin k y ltac:(lia)). rewrite Hne, Hy in Hmin by lia.
    specialize (Hmin eq_refl). unfold isNextCandidate in Hmin.
    destruct (Nat.ltb_spec i k); [| lia]. simpl in Hmin.
    destruct (completed y); [now left | right].
    simpl in Hmin. apply negb_false_iff in Hmin.
    now apply SessionType_eqb_eq. }
  split; [exact Hrs |].
  split.
  { rewrite Hrs. apply (Permutation_in _ (Permutation_sym (sortByDate_perm _))).
    apply list_elem_of_In. eapply list_elem_of_lookup_2.
    apply list_lookup_insert_eq. unfold marked. rewrite length_alter.
    eapply lookup_lt_Some, Hr. }
  split; [reflexivity |]. split; [reflexivity |].
  split; [now apply negb_true_iff in Hpend |].
  split; [reflexivity |]. split; [reflexivity |].
  rewrite Hdate. clear Hdate. revert Hb.
  destruct (Z.leb_spec 0 gap) as [H0 | H0]; intros Hb.
  - pose proof (Z.div_mod (13 * gap) 10 ltac:(lia)) as Hdm.
    pose proof (Z.mod_pos_bound (13 * gap) 10 ltac:(lia)) as Hmb.
    unfold gap in *. repeat split; try lia.
    intros Hle. replace (date r) with now by lia.
    rewrite stretchedDate_due; [lia |].
    change (2 ^ 53) with 9007199254740992.
    change (2 ^ 50) with 1125899906842624 in Hnow. lia.
  - pose proof (Z.div_mod (13 * - gap) 10 ltac:(lia)) as Hdm.
    pose proof (Z.mod_pos_bound (13 * - gap) 10 ltac:(lia)) as Hmb.
    unfold gap in *. repeat split; lia.
Qed.

Lemma easy_stretch_witness :
  let r := pending 1700259200000 2 standard in
  date r < date (stretch sampleNow r) /\
  reviews (completeReview sampleNow 1700086400000 easy sampleTopic) =
    sortByDate (<[1%nat := stretch sampleNow r]>
                  (alter (complete sampleNow easy) 0%nat (reviews sampleTopic))).
Proof.
  pose proof (easy_stretch sampleNow 1700086400000 sampleTopic 0%nat 1%nat
                (pending 1700259200000 2 standard)) as H.
  specialize (H eq_refl eq_refl eq_refl).
  specialize (H ltac:(vm_compute; split; reflexivity)
                ltac:(vm_compute; split; reflexivity)).
  cbv zeta in H.
  destruct H as (_ & _ & _ & _ & Hrs & _ & _ & _ & _ & _ & _ & _ & Hlater & _).
  split.
  - apply Hlater. vm_compute. discriminate.
  - exact Hrs.
Defined.

(** C1, as stated, fails: an overdue session is moved earlier, not
    later. *)
Lemma easy_stretch_overdue :
  ~ easyStretchExactAt sampleNow 1699827200000 overdueTopic.
Proof.
  intros H.
  destruct (H 0%nat 1%nat (pending 1699913600000 2 standard)
              eq_refl eq_refl eq_refl) as (r' & Hin & _ & Hlt & _).
  vm_compute in Hin.
  destruct Hin as [<- | [<- | []]]; vm_compute in Hlt; discriminate.
Qed.

(** ** Mastery *)

(** C7 at a tie: with 23 of 40 completed sessions rated good or easy the
    percentage is exactly 57.5, which rounds to 58, but the double
    [(23 / 40) * 100] is 57.49999999999999 and the code stores 57. *)
Theorem mastery_tie_rounds_down :
  masteryOf tiedReviews = 57 /\ masteryAsStated tiedReviews = 58.
Proof. split; vm_compute; reflexivity. Qed.

(** * Further properties of the schedule generator *)

(** X1. Inside +-2^51 ms (about 71000 years) the day count
    [Math.ceil(diff / 86400000)] computed in double precision is the exact
    ceiling of the quotient; in particular it is positive exactly for a
    positive difference. *)
Theorem day_count_exact diff :
  - 2 ^ 51 < diff < 2 ^ 51 ->
  ceilDays diff = - ((- diff) / msPerDay) /\
  (diff <= ceilDays diff * msPerDay < diff + msPerDay) /\
  (0 < ceilDays diff <-> 0 < diff).
Proof.
  intros Hd. rewrite (ceilDays_exact diff Hd).
  assert (HD : msPerDay = 86400000) by reflexivity. rewrite HD.
  pose proof (Z.div_mod (- diff) 86400000 ltac:(lia)) as Hdm.
  pose proof (Z.mod_pos_bound (- diff) 86400000 ltac:(lia)) as Hmb.
  repeat split; lia.
Qed.

Lemma day_count_exact_witness :
  ceilDays 86400001 = 2 /\ ceilDays (- 86400001) = -1.
Proof.
  split.
  - rewrite (proj1 (day_count_exact 86400001
                      ltac:(vm_compute; split; reflexivity))).
    reflexivity.
  - rewrite (proj1 (day_count_exact (- 86400001)
                      ltac:(vm_compute; split; reflexivity))).
    reflexivity.
Defined.

(** In a zone of fixed offset: when the loop emitted sessions and the
    exam lies within 2^51 ms of the last one, a [final] session is
    appended exactly when the exam is more than four days after the last
    emitted session, two days before the exam. *)
Lemma reconcileExam_final now c e lastReview :
  1 <= c <= 10 ->
  let emitted :=
    scheduleLoop 20 (Some e) (multiplierOf c) (JsNum.ofZ 1)
      (addDays now 1) [] in
  last emitted = Some lastReview ->
  - 2 ^ 51 < e - date lastReview < 2 ^ 51 ->
  let diff := e - date lastReview in
  let days := - ((- diff) / msPerDay) in
  (4 * msPerDay < diff ->
   generateSchedule now c (Some e) =
     emitted ++ [pending (addDays e (-2)) (days - 2) final] /\
   2 * msPerDay < addDays e (-2) - date lastReview /\ 3 <= days - 2) /\
  (diff <= 4 * msPerDay -> generateSchedule now c (Some e) = emitted).
Proof.
  intros _ emitted Hlast Hrange diff days.
  pose proof (ceilDays_exact diff Hrange) as Hdays.
  assert (HD : msPerDay = 86400000) by reflexivity.
  pose proof (Z.div_mod (- diff) msPerDay ltac:(lia)) as Hdm.
  pose proof (Z.mod_pos_bound (- diff) msPerDay ltac:(lia)) as Hmb.
  unfold generateSchedule, reconcileExam. fold emitted.
  rewrite Hlast. fold diff. rewrite Hdays.
  unfold addDays, days. clear days. rewrite HD in *.
  set (q := - diff / 86400000) in *. split.
  - intros Hgt.
    destruct (Z.ltb_spec 4 (- q)) as [H4 | H4]; [| lia].
    destruct (Z.ltb_spec (date lastReview) (e + -2 * 86400000))
      as [Hd | Hd]; [| unfold diff in *; lia].
    unfold diff in *. repeat split; lia.
  - intros Hle.
    destruct (Z.ltb_spec 4 (- q)) as [H4 | H4]; [lia | reflexivity].
Qed.






Lemma filter_all {A} (p : A -> bool) l :
  Forall (fun x => p x = true) l -> List.filter p l = l.
Proof.
  induction 1 as [| x l Hx _ IH]; simpl; [reflexivity |].
  now rewrite Hx, IH.
Qed.

Lemma filter_none {A} (p : A -> bool) l :
  Forall (fun x => p x = false) l -> List.filter p l = [].
Proof.
  induction 1 as [| x l Hx _ IH]; simpl; [reflexivity |].
  now rewrite Hx, IH.
Qed.



Lemma pastExam_shift delta ex rd :
  pastExam (option_map (fun e => e + delta) ex) (rd + delta) = pastExam ex rd.
Proof.
  destruct ex as [e |]; simpl; [| reflexivity].
  destruct (Z.ltb_spec (e + delta) (rd + delta)), (Z.ltb_spec e rd);
    try reflexivity; lia.
Qed.

Lemma scheduleLoop_shift_exam delta n ex m iv rd acc :
  scheduleLoop n (option_map (fun e => e + delta) ex) m iv (rd + delta)
    (map (shift delta) acc) =
  map (shift delta) (scheduleLoop n ex m iv rd acc).
Proof.
  revert iv rd acc. induction n as [| n IH]; intros iv rd acc;
    cbn [scheduleLoop]; [reflexivity |].
  rewrite pastExam_shift. destruct (pastExam ex rd); [reflexivity |].
  rewrite addDays_shift, <- IH. f_equal.
  rewrite map_app, length_map. reflexivity.
Qed.

Lemma last_map_shift delta l :
  last (map (shift delta) l) = option_map (shift delta) (last l).
Proof.
  induction l as [| x [| y l] IH]; try reflexivity.
  change (map (shift delta) (x :: y :: l))
    with (shift delta x :: shift delta y :: map (shift delta) l).
  rewrite !last_cons_cons. exact IH.
Qed.

Lemma reconcileExam_shift delta e l :
  reconcileExam (e + delta) (map (shift delta) l) =
  map (shift delta) (reconcileExam e l).
Proof.
  unfold reconcileExam. rewrite last_map_shift.
  destruct (last l) as [lastReview |]; cbn [option_map shift date];
    [| reflexivity].
  replace (e + delta - (date lastReview + delta))
    with (e - date lastReview) by lia.
  destruct (4 <? _); [| reflexivity].
  rewrite addDays_shift.
  destruct (Z.ltb_spec (date lastReview + delta) (addDays e (-2) + delta)),
    (Z.ltb_spec (date lastReview) (addDays e (-2))); try lia;
    [| reflexivity].
  rewrite map_app. reflexivity.
Qed.

(** In a zone of fixed offset the schedule depends on the clock only by
    translation. *)
Lemma generateSchedule_shift delta now c exam :
  1 <= c <= 10 ->
  generateSchedule (now + delta) c (option_map (fun e => e + delta) exam) =
  map (shift delta) (generateSchedule now c exam).
Proof.
  intros _.
  pose proof (scheduleLoop_shift_exam delta 20 exam (multiplierOf c)
                (JsNum.ofZ 1) (addDays now 1) []) as H.
  unfold generateSchedule. rewrite addDays_shift.
  destruct exam as [e |]; cbn [option_map map] in *; rewrite H.
  - apply reconcileExam_shift.
  - reflexivity.
Qed.

Lemma gaps_shift delta l : gaps (map (shift delta) l) = gaps l.
Proof.
  induction l as [| a [| b l] IH]; try reflexivity.
  change (gaps (map (shift delta) (a :: b :: l)))
    with ((date b + delta - (date a + delta))
          :: gaps (map (shift delta) (b :: l))).
  rewrite IH. cbn [gaps]. f_equal. lia.
Qed.

Lemma wideningb_sound minGap gs :
  wideningb minGap gs = true ->
  Forall (fun g => minGap <= g) gs /\ StronglySorted Z.le gs.
Proof.
  intros H. split.
  - induction gs as [| g gs IH]; [constructor |]. cbn [wideningb] in H.
    apply andb_prop in H as [H Hrest]. apply andb_prop in H as [Hg _].
    constructor; [lia | auto].
  - apply Sorted_StronglySorted; [intros a b c' ? ?; lia |].
    induction gs as [| g gs IH]; [constructor |]. cbn [wideningb] in H.
    apply andb_prop in H as [H Hrest]. apply andb_prop in H as [_ Hnext].
    constructor; [auto |].
    destruct gs as [| g' gs]; constructor. lia.
Qed.

Lemma complexities_spec c : 1 <= c <= 10 -> In c complexities.
Proof.
  intros H. unfold complexities.
  assert (Hc : c = 1 \/ c = 2 \/ c = 3 \/ c = 4 \/ c = 5 \/
               c = 6 \/ c = 7 \/ c = 8 \/ c = 9 \/ c = 10) by lia.
  simpl. intuition.
Qed.

Lemma baseSchedule_widening :
  forallb (fun c => wideningb (2 * msPerDay) (gaps (baseSchedule c)))
          complexities = true.
Proof. vm_compute. reflexivity. Qed.


(** In a zone of fixed offset the gaps are at least two days and never
    shrink. *)
Lemma generateSchedule_widening now c :
  1 <= c <= 10 ->
  Forall (fun g => 2 * msPerDay <= g) (gaps (generateSchedule now c None)) /\
  StronglySorted Z.le (gaps (generateSchedule now c None)).
Proof.
  intros Hc. rewrite generateSchedule_base, gaps_shift.
  apply wideningb_sound.
  pose proof baseSchedule_widening as H.
  rewrite forallb_forall in H. apply H.
  apply complexities_spec, Hc.
Qed.




(** * Further properties of review completion *)

Lemma reschedule_length now rt i l :
  (length l <= length (reschedule now rt i l) <= S (length l))%nat /\
  (rt <> hard -> length (reschedule now rt i l) = length l).
Proof.
  destruct rt.
  - rewrite (reschedule_hard_length now i l).
    destruct (existsOnDay _ l); split; try lia; congruence.
  - split; [simpl; lia | reflexivity].
  - unfold reschedule.
    destruct (findIndex _ l).
    + rewrite sortByDate_length, length_alter. split; [lia | reflexivity].
    + split; [lia | reflexivity].
Qed.

(** X9. Completions keep the mastery score a percentage: for a review
    list below the JavaScript array bound, if the stored mastery lies in
    [0,100] it still does after any completion, whether or not the target
    date matches a session. *)
Theorem mastery_in_range now d rt t :
  Z.of_nat (length (reviews t)) < 2 ^ 32 ->
  0 <= mastery t <= 100 ->
  0 <= mastery (completeReview now d rt t) <= 100.
Proof.
  intros Hlen Hm. unfold completeReview.
  destruct (findIndex _ _) as [i |]; [| exact Hm].
  cbn [mastery]. apply masteryOf_bounds.
  pose proof (reschedule_length now rt i
                (alter (complete now rt) i (reviews t))) as [[_ H] _].
  rewrite length_alter in H.
  change (2 ^ 32) with 4294967296 in Hlen.
  change (2 ^ 53) with 9007199254740992. lia.
Qed.

Lemma mastery_in_range_witness :
  0 <= mastery (completeReview sampleNow 1700086400000 good sampleTopic)
    <= 100.
Proof.
  apply mastery_in_range; vm_compute; split; discriminate.
Defined.

Lemma filter_ext_Forall {A} (p q : A -> bool) l :
  Forall (fun x => p x = q x) l -> List.filter p l = List.filter q l.
Proof.
  induction 1 as [| x l Hx _ IH]; simpl; [reflexivity |].
  now rewrite Hx, IH.
Qed.

Lemma percent_full c :
  0 < c < 2 ^ 53 ->
  JsNum.round
    (JsNum.mul (JsNum.div (JsNum.ofZ c) (JsNum.ofZ c)) (JsNum.ofZ 100))
  = 100.
Proof.
  intros Hc.
  assert (H : dy (-105 + -52 + 52) 0 100 100
                (JsNum.mul (JsNum.div (JsNum.ofZ c) (JsNum.ofZ c))
                           (JsNum.ofZ 100))).
  { eapply (JsNumFacts.mul_dy (-105) 0 1 1 _ (-52) 0 100 100 _ 0 100 100);
      try lia.
    - apply JsNumFacts.div_ofZ_dy; lia.
    - apply JsNumFacts.ofZ_dy. lia. }
  apply JsNumFacts.round_dy in H. lia.
Qed.

Lemma percent_none c :
  0 < c < 2 ^ 53 ->
  JsNum.round
    (JsNum.mul (JsNum.div (JsNum.ofZ 0) (JsNum.ofZ c)) (JsNum.ofZ 100))
  = 0.
Proof.
  intros Hc. destruct (JsNumFacts.ofZ_pos c Hc) as (m & e & -> & _).
  reflexivity.
Qed.

(** X10. The two ends of the mastery scale: when every completed session
    is rated good or easy the mastery is exactly 100, and when none is it
    is exactly 0 (at least one session being completed, and the list
    shorter than 2^53). *)
Theorem mastery_extremes rs :
  Z.of_nat (length rs) < 2 ^ 53 ->
  (exists r, In r rs /\ completed r = true) ->
  (Forall (fun r => completed r = true -> isGoodOrEasy (rating r) = true) rs
   -> masteryOf rs = 100) /\
  (Forall (fun r => completed r = true -> isGoodOrEasy (rating r) = false) rs
   -> masteryOf rs = 0).
Proof.
  intros Hlen (r0 & Hin & Hdone). unfold masteryOf.
  set (c := length (List.filter completed rs)).
  assert (Hc : (0 < c <= length rs)%nat).
  { split; [| apply List.filter_length_le].
    assert (In r0 (List.filter completed rs))
      by (apply List.filter_In; auto).
    unfold c. destruct (List.filter completed rs); [contradiction |].
    simpl. lia. }
  destruct (Nat.ltb_spec 0 c) as [_ | Hc0]; [| lia].
  split; intros Hall.
  - rewrite (filter_ext_Forall _ completed).
    + fold c. apply percent_full. lia.
    + eapply Forall_impl; [exact Hall |]. simpl. intros x Hx.
      destruct (completed x); [now rewrite Hx | reflexivity].
  - rewrite filter_none.
    + apply percent_none. lia.
    + eapply Forall_impl; [exact Hall |]. simpl. intros x Hx.
      destruct (completed x); [now rewrite Hx | reflexivity].
Qed.

Lemma mastery_extremes_witness :
  masteryOf [complete sampleNow easy (pending 1700086400000 1 initial);
             pending 1700259200000 2 standard] = 100.
Proof.
  apply mastery_extremes.
  - vm_compute. reflexivity.
  - eexists. split; [left; reflexivity | reflexivity].
  - repeat constructor; simpl; discriminate.
Defined.

Lemma filter_length_perm {A} (p : A -> bool) l l' :
  Permutation l l' ->
  length (List.filter p l) = length (List.filter p l').
Proof.
  induction 1 as [| x l l' _ IH | x y l | l l' l'' _ IH1 _ IH2]; simpl.
  - reflexivity.
  - destruct (p x); simpl; congruence.
  - destruct (p x), (p y); reflexivity.
  - congruence.
Qed.

Lemma count_alter {A} (p : A -> bool) (f : A -> A) i l x :
  l !! i = Some x ->
  (length (List.filter p (alter f i l)) + (if p x then 1 else 0) =
   length (List.filter p l) + (if p (f x) then 1 else 0))%nat.
Proof.
  revert i. induction l as [| a l IH]; intros [| i] H; simpl in *;
    try discriminate.
  - injection H as ->. clear IH. destruct (p x), (p (f x)); simpl; lia.
  - specialize (IH i H). destruct (p a); simpl; [f_equal |]; exact IH.
Qed.

(** Rescheduling only adds or moves pending sessions, so it leaves every
    count of completed sessions alone. *)
Lemma reschedule_count (p : ReviewSession -> bool) now rt i l :
  (forall x, completed x = false -> p x = false) ->
  length (List.filter p (reschedule now rt i l)) = length (List.filter p l).
Proof.
  intros Hp. unfold reschedule. destruct rt.
  - destruct (existsOnDay _ l); [reflexivity |].
    rewrite (filter_length_perm p _ _ (sortByDate_perm _)).
    rewrite List.filter_app, length_app. simpl.
    rewrite (Hp (pending _ _ _) eq_refl). simpl. lia.
  - reflexivity.
  - destruct (findIndex _ l) as [j |] eqn:E; [| reflexivity].
    rewrite (filter_length_perm p _ _ (sortByDate_perm _)).
    apply findIndex_Some in E as (x & Hx & Hc & _).
    unfold isNextCandidate in Hc.
    apply andb_true_iff in Hc as [Hc _].
    apply andb_true_iff in Hc as [_ Hc].
    apply negb_true_iff in Hc.
    pose proof (count_alter p (stretch now) j l x Hx) as H.
    rewrite (Hp x Hc), (Hp (stretch now x) Hc) in H. lia.
Qed.

(** X11. A completion that finds its session never drops a session: the
    list keeps its length, except that a hard rating may add one; and the
    number of completed sessions grows by exactly one when the target was
    pending and stays the same when it had been completed before. *)
Theorem completion_counts now d rt t i r :
  findIndex (fun _ x => date x =? d) (reviews t) = Some i ->
  reviews t !! i = Some r ->
  let rs' := reviews (completeReview now d rt t) in
  (length (reviews t) <= length rs' <= S (length (reviews t)))%nat /\
  (rt <> hard -> length rs' = length (reviews t)) /\
  length (List.filter completed rs') =
  (length (List.filter completed (reviews t)) +
   if completed r then 0 else 1)%nat.
Proof.
  intros Hi Hr rs'. unfold rs'. rewrite (reviews_completeReview _ _ _ _ _ Hi).
  pose proof (reschedule_length now rt i
                (alter (complete now rt) i (reviews t))) as [Hlen Hsame].
  rewrite length_alter in Hlen, Hsame.
  split; [exact Hlen |]. split; [exact Hsame |].
  rewrite reschedule_count by auto.
  pose proof (count_alter completed (complete now rt) i _ r Hr) as H.
  cbn [complete completed] in H. destruct (completed r); lia.
Qed.

Lemma completion_counts_witness :
  length (List.filter completed
            (reviews (completeReview sampleNow 1700086400000 hard
                        sampleTopic))) =
  (length (List.filter completed (reviews sampleTopic)) + 1)%nat.
Proof.
  pose proof (completion_counts sampleNow 1700086400000 hard sampleTopic
                0%nat (pending 1700086400000 1 initial)
                ltac:(vm_compute; reflexivity)
                ltac:(vm_compute; reflexivity)) as (_ & _ & H).
  exact H.
Defined.

Lemma findIndexFrom_alter_date (f : ReviewSession -> ReviewSession) d i l k :
  (forall x, date (f x) = date x) ->
  findIndexFrom (fun _ x => date x =? d) k (alter f i l) =
  findIndexFrom (fun _ x => date x =? d) k l.
Proof.
  intros Hf. revert i k. induction l as [| a l IH]; intros i k;
    [reflexivity |].
  destruct i; simpl.
  - now rewrite Hf.
  - destruct (date a =? d); [reflexivity | apply IH].
Qed.

Lemma alter_absorb {A} (f g : A -> A) i (l : list A) :
  (forall x, f (g x) = f x) -> alter f i (alter g i l) = alter f i l.
Proof.
  intros H. revert i. induction l as [| a l IH]; intros [| i]; simpl;
    try reflexivity.
  - now rewrite H.
  - f_equal. apply IH.
Qed.

(** X12. A completion rated good only marks its session, so the next
    completion of the same session date absorbs it: completing with any
    rating after a good completion gives the topic that the later
    completion alone gives.  In particular the earlier completion date
    and rating are lost. *)
Theorem good_completion_absorbed now1 now2 d rt t :
  completeReview now2 d rt (completeReview now1 d good t) =
  completeReview now2 d rt t.
Proof.
  unfold completeReview at 2.
  destruct (findIndex _ (reviews t)) as [i |] eqn:E; [| reflexivity].
  cbn [reschedule]. unfold completeReview. cbn [reviews].
  unfold findIndex in *.
  rewrite findIndexFrom_alter_date by reflexivity. rewrite E.
  cbn [id name addedDate examDate complexity subtopics summary notes].
  rewrite alter_absorb by reflexivity. reflexivity.
Qed.

Lemma find_first {A} (p : A -> bool) l x :
  List.find p l = Some x ->
  exists l1 l2, l = l1 ++ x :: l2 /\ p x = true /\
                Forall (fun y => p y = false) l1.
Proof.
  induction l as [| a l IH]; simpl; [discriminate |].
  destruct (p a) eqn:E.
  - intros [= ->]. exists [], l. auto.
  - intros H. destruct (IH H) as (l1 & l2 & -> & Hp & Hl1).
    exists (a :: l1), l2. auto.
Qed.

Lemma ascending_app_r l1 l2 : ascending (l1 ++ l2) -> ascending l2.
Proof.
  unfold ascending. induction l1 as [| a l1 IH]; simpl; [auto |].
  intros H. apply StronglySorted_inv in H as [H _]. auto.
Qed.

Lemma nextReviewOf_spec now rs :
  (nextReviewOf now rs = NextCompleted <->
   Forall (fun r => completed r = false -> date r < now) rs) /\
  (forall n, nextReviewOf now rs = NextAt n ->
     now <= n /\
     (exists r, In r rs /\ completed r = false /\ date r = n) /\
     (ascending rs ->
      Forall (fun r => completed r = false -> now <= date r -> n <= date r)
             rs)) /\
  nextReviewOf now rs <> NextNoReviews /\ nextReviewOf now rs <> NextUnset.
Proof.
  unfold nextReviewOf.
  destruct (List.find _ rs) as [x |] eqn:E.
  - pose proof (find_first _ _ _ E) as (l1 & l2 & -> & Hp & Hl1).
    apply andb_true_iff in Hp as [Hc Hd].
    apply negb_true_iff in Hc. apply Z.leb_le in Hd.
    split; [| split; [| split; discriminate]].
    + split; [discriminate |]. intros H.
      apply List.Forall_forall with (x := x) in H;
        [specialize (H Hc); lia | apply in_or_app; right; left; reflexivity].
    + intros n [= <-]. split; [exact Hd |]. split.
      * exists x. split; [apply in_or_app; right; left; reflexivity | auto].
      * intros Hasc. apply List.Forall_forall. intros y Hy Hcy Hdy.
        apply in_app_or in Hy as [Hy | [-> | Hy]].
        -- apply (proj1 (List.Forall_forall _ _) Hl1) in Hy.
           apply andb_false_iff in Hy as [Hy | Hy].
           ++ rewrite Hcy in Hy. discriminate.
           ++ apply Z.leb_gt in Hy. lia.
        -- lia.
        -- apply ascending_app_r in Hasc. unfold ascending in Hasc.
           apply StronglySorted_inv in Hasc as [_ Hasc].
           apply (proj1 (List.Forall_forall _ _) Hasc) in Hy. exact Hy.
  - split; [| split; [| split; discriminate]].
    + split; [| reflexivity]. intros _.
      apply List.Forall_forall. intros y Hy Hcy.
      pose proof (List.find_none _ _ E y Hy) as H. simpl in H.
      rewrite Hcy in H. simpl in H. apply Z.leb_gt in H. exact H.
    + discriminate.
Qed.

(** X13. The next-review pointer after a completion that found its
    session.  It reads 'Completed' exactly when every pending session
    lies before the completion time, so also while overdue sessions are
    still pending; otherwise it is the date of a pending session that is
    not before the completion time, the earliest such one when the
    topic's list was in date order; it is never the
    'No Reviews Scheduled' sentinel nor empty. *)
Theorem next_review_pointer now d rt t i :
  findIndex (fun _ x => date x =? d) (reviews t) = Some i ->
  let t' := completeReview now d rt t in
  (nextReviewDate t' = NextCompleted <->
   Forall (fun r => completed r = false -> date r < now) (reviews t')) /\
  (forall n, nextReviewDate t' = NextAt n ->
     now <= n /\
     (exists r, In r (reviews t') /\ completed r = false /\ date r = n) /\
     (ascending (reviews t) ->
      Forall (fun r => completed r = false -> now <= date r -> n <= date r)
             (reviews t'))) /\
  nextReviewDate t' <> NextNoReviews /\ nextReviewDate t' <> NextUnset.
Proof.
  intros Hi t'.
  assert (Hnext : nextReviewDate t' = nextReviewOf now (reviews t')).
  { unfold t', completeReview. rewrite Hi. reflexivity. }
  rewrite Hnext.
  destruct (nextReviewOf_spec now (reviews t')) as (H1 & H2 & H3 & H4).
  split; [exact H1 |]. split; [| split; assumption].
  intros n Hn. destruct (H2 n Hn) as (Ha & Hb & Hc).
  split; [exact Ha |]. split; [exact Hb |].
  intros Hasc. apply Hc. unfold t'. now apply completeReview_ascending.
Qed.

Lemma next_review_pointer_witness :
  nextReviewDate (completeReview sampleNow 1700086400000 good sampleTopic)
  <> NextNoReviews.
Proof.
  apply (next_review_pointer sampleNow 1700086400000 good sampleTopic
           0%nat ltac:(vm_compute; reflexivity)).
Defined.

Lemma completeReview_id now d rt t : id (completeReview now d rt t) = id t.
Proof. unfold completeReview. destruct (findIndex _ _); reflexivity. Qed.

(** X14. Completions on different topics commute: the order in which two
    topics' sessions are completed does not matter, each topic being
    rewritten by its own completion only. *)
Theorem completions_commute now1 id1 d1 rt1 now2 id2 d2 rt2 topics :
  id1 <> id2 ->
  markReviewComplete now1 id1 d1 rt1
    (markReviewComplete now2 id2 d2 rt2 topics) =
  markReviewComplete now2 id2 d2 rt2
    (markReviewComplete now1 id1 d1 rt1 topics).
Proof.
  intros Hne. unfold markReviewComplete. rewrite !map_map.
  apply map_ext. intros t.
  destruct (String.eqb_spec (id t) id1) as [H1 | H1];
    destruct (String.eqb_spec (id t) id2) as [H2 | H2]; simpl.
  - congruence.
  - rewrite completeReview_id.
    destruct (String.eqb_spec (id t) id2); [contradiction |].
    destruct (String.eqb_spec (id t) id1); [| contradiction]. reflexivity.
  - rewrite completeReview_id.
    destruct (String.eqb_spec (id t) id1); [contradiction |].
    destruct (String.eqb_spec (id t) id2); [| contradiction]. reflexivity.
  - destruct (String.eqb_spec (id t) id1); [contradiction |].
    destruct (String.eqb_spec (id t) id2); [contradiction |]. reflexivity.
Qed.

Lemma completions_commute_witness :
  markReviewComplete sampleNow "t1" 1700086400000 hard
    (markReviewComplete sampleNow "t2" 1700086400000 easy [sampleTopic]) =
  markReviewComplete sampleNow "t2" 1700086400000 easy
    (markReviewComplete sampleNow "t1" 1700086400000 hard [sampleTopic]).
Proof.
  apply completions_commute. discriminate.
Defined.

(** * Further properties of notes, deletion and the heatmap *)

Lemma tallyTopics_reviews ts ts' (m : gmap Z nat) :
  map reviews ts = map reviews ts' ->
  foldl tallyTopic m ts = foldl tallyTopic m ts'.
Proof.
  revert ts' m. induction ts as [| t ts IH]; intros [| t' ts'] m H;
    try discriminate; [reflexivity |].
  simpl in H. injection H as Ht Hts. simpl.
  unfold tallyTopic at 2 4. rewrite Ht. now apply IH.
Qed.

(** X15. Editing notes and completing reviews do not interfere: the two
    updates commute, for any pair of topic ids, equal or not. *)
Theorem notes_commute_with_completion topicId text now topicId' d rt topics :
  updateNotes topicId text (markReviewComplete now topicId' d rt topics) =
  markReviewComplete now topicId' d rt (updateNotes topicId text topics).
Proof.
  unfold updateNotes, markReviewComplete. rewrite !map_map.
  apply map_ext. intros t.
  destruct (String.eqb (id t) topicId') eqn:E';
    destruct (String.eqb (id t) topicId) eqn:E; cbn [negb].
  - rewrite completeReview_id, E. cbn [id]. rewrite E'. cbn [negb].
    unfold completeReview. cbn [reviews].
    destruct (findIndex _ (reviews t)); reflexivity.
  - rewrite completeReview_id, E, E'. reflexivity.
  - rewrite E. cbn [id]. rewrite E'. reflexivity.
  - rewrite E, E'. reflexivity.
Qed.

(** X16. Notes are overwritten, never merged: of two edits of the same
    topic the later one wins; and an edit leaves every schedule, every
    mastery score and next-review pointer, and so the heatmap, as they
    were. *)
Theorem notes_last_write topicId s1 s2 now topics :
  updateNotes topicId s2 (updateNotes topicId s1 topics) =
    updateNotes topicId s2 topics /\
  map reviews (updateNotes topicId s1 topics) = map reviews topics /\
  map mastery (updateNotes topicId s1 topics) = map mastery topics /\
  map nextReviewDate (updateNotes topicId s1 topics) =
    map nextReviewDate topics /\
  activityHeatmap now (updateNotes topicId s1 topics) =
    activityHeatmap now topics.
Proof.
  assert (Hrs : map reviews (updateNotes topicId s1 topics) =
                map reviews topics).
  { unfold updateNotes. rewrite map_map. apply map_ext. intros t.
    destruct (String.eqb _ _); reflexivity. }
  split; [| split; [exact Hrs | split; [| split]]].
  - unfold updateNotes. rewrite map_map. apply map_ext. intros t.
    destruct (String.eqb (id t) topicId) eqn:E; cbn [id]; rewrite E;
      reflexivity.
  - unfold updateNotes. rewrite map_map. apply map_ext. intros t.
    destruct (String.eqb _ _); reflexivity.
  - unfold updateNotes. rewrite map_map. apply map_ext. intros t.
    destruct (String.eqb _ _); reflexivity.
  - unfold activityHeatmap, tally. f_equal.
    now apply tallyTopics_reviews.
Qed.

Lemma filter_sublist {A} (p : A -> bool) l : sublist (List.filter p l) l.
Proof.
  induction l as [| a l IH]; simpl; [constructor |].
  destruct (p a); now constructor.
Qed.

Lemma markReviewComplete_other now topicId d rt l :
  Forall (fun u => id u <> topicId) l ->
  markReviewComplete now topicId d rt l = l.
Proof.
  unfold markReviewComplete.
  induction 1 as [| u l Hu _ IH]; simpl; [reflexivity |].
  rewrite IH. destruct (String.eqb_spec (id u) topicId); [contradiction |].
  reflexivity.
Qed.

Lemma deleteTopic_clean topicId topics :
  Forall (fun u => id u <> topicId) (deleteTopic true topicId topics).
Proof.
  unfold deleteTopic. apply List.Forall_forall. intros u Hu.
  apply List.filter_In in Hu as [_ Hu].
  destruct (String.eqb_spec (id u) topicId); [discriminate | assumption].
Qed.

(** X17. A confirmed deletion removes every topic with the given id and
    nothing else, keeping the others in their order; it returns to the
    dashboard with no topic selected; doing it again changes nothing, and
    afterwards a completion or a notes edit addressed to the deleted id is
    a no-op.  A declined confirmation leaves the whole state as it was. *)
Theorem delete_topic_effect topicId a :
  let a' := deleteTopicIn true topicId a in
  sublist (appTopics a') (appTopics a) /\
  (forall t, In t (appTopics a') <-> In t (appTopics a) /\ id t <> topicId) /\
  activeView a' = viewDashboard /\ selectedTopic a' = None /\
  deleteTopicIn true topicId a' = a' /\
  (forall now d rt,
     markReviewComplete now topicId d rt (appTopics a') = appTopics a') /\
  (forall text, updateNotes topicId text (appTopics a') = appTopics a') /\
  deleteTopicIn false topicId a = a.
Proof.
  intros a'. unfold a', deleteTopicIn, setView.
  cbn [appTopics activeView selectedTopicId isLoading].
  pose proof (deleteTopic_clean topicId (appTopics a)) as Hclean.
  split; [apply filter_sublist |].
  split.
  { intros t. unfold deleteTopic. rewrite List.filter_In.
    destruct (String.eqb_spec (id t) topicId); simpl; split;
      intros [H1 H2]; auto; try discriminate; contradiction. }
  split; [reflexivity |]. split; [reflexivity |].
  split.
  { f_equal. unfold deleteTopic at 1. apply filter_all.
    eapply Forall_impl; [exact Hclean |]. simpl. intros u Hu.
    destruct (String.eqb_spec (id u) topicId); [contradiction | reflexivity]. }
  split; [intros now d rt; now apply markReviewComplete_other |].
  split; [| reflexivity].
  intros text. unfold updateNotes.
  rewrite <- (map_id (deleteTopic true topicId (appTopics a))) at 2.
  apply map_ext_in. intros u Hu.
  apply (proj1 (List.Forall_forall _ _) Hclean) in Hu.
  destruct (String.eqb_spec (id u) topicId); [contradiction | reflexivity].
Qed.

Lemma activityCount_app day l k :
  activityCount day (l ++ k) =
  (activityCount day l + activityCount day k)%nat.
Proof.
  unfold activityCount.
  now rewrite map_app, concat_app, List.filter_app, length_app.
Qed.

(** * Further properties of the labels *)

(** X19. The days-until label, for a date within 2^51 ms of now: 'DATE
    PASSED' exactly when the date is not after now (so also at the very
    instant), and otherwise the number of days left rounded up, which is
    at least 1 and within a day of the true distance. *)
Theorem days_until_label now d :
  - 2 ^ 51 < d - now < 2 ^ 51 ->
  (d <= now -> getDaysUntil now (Some d) = DatePassed) /\
  (now < d ->
   exists days, getDaysUntil now (Some d) = DaysRemaining days /\
     1 <= days /\
     now + (days - 1) * msPerDay < d <= now + days * msPerDay).
Proof.
  intros Hd. unfold getDaysUntil. cbv zeta.
  rewrite (ceilDays_exact (d - now) Hd).
  assert (HD : msPerDay = 86400000) by reflexivity. rewrite HD.
  pose proof (Z.div_mod (- (d - now)) 86400000 ltac:(lia)) as Hdm.
  pose proof (Z.mod_pos_bound (- (d - now)) 86400000 ltac:(lia)) as Hmb.
  split; intros Hcmp.
  - destruct (Z.ltb_spec 0 (- (- (d - now) / 86400000))); [lia |].
    reflexivity.
  - destruct (Z.ltb_spec 0 (- (- (d - now) / 86400000))); [| lia].
    eexists. split; [reflexivity |]. lia.
Qed.

Lemma days_until_label_witness :
  getDaysUntil sampleNow (Some sampleNow) = DatePassed.
Proof.
  apply (days_until_label sampleNow sampleNow).
  - vm_compute. split; reflexivity.
  - lia.
Defined.

(** * Further properties of the advice *)

(** Comparison of a number enclosed by [dy] with a positive normal
    constant [mg * 2^eg]. *)
Lemma numGt_above emn j lo hi f mg eg :
  dy emn j lo hi f -> 0 < lo ->
  2 ^ 52 <= Zpos mg < 2 ^ 53 -> j <= - eg ->
  Zpos mg < lo * 2 ^ (- eg - j) ->
  numGt f (S754_finite false mg eg) = true.
Proof.
  intros Hf Hlo Hmg Hj Habove.
  destruct f as [s | s | | s m e]; simpl in Hf; try contradiction; [lia |].
  destruct Hf as (Hc & _ & Hej & [Hb _]).
  pose proof (JsNumFacts.pow2_pos (- e - j) ltac:(lia)) as HW.
  assert (s = false) by (apply (JsNumFacts.mant_pos_sign s m); nia).
  subst s. change (JsNum.mant false m) with (Zpos m) in Hb.
  unfold numGt, SFltb, SFcompare.
  destruct (Z.compare_spec eg e) as [-> | Hlt | Hgt].
  - rewrite Pos.compare_cont_spec. simpl.
    assert (Hlt : (mg < m)%positive) by lia.
    apply Pos.compare_lt_iff in Hlt. now rewrite Hlt.
  - reflexivity.
  - exfalso.
    assert (HS : 2 ^ (- e - j) = 2 ^ (- eg - j) * 2 ^ (eg - e)).
    { rewrite <- JsNumFacts.pow2_split by lia. f_equal. lia. }
    assert (H2 : 2 <= 2 ^ (eg - e)).
    { change 2 with (2 ^ 1) at 1. apply Z.pow_le_mono_r; lia. }
    pose proof (JsNumFacts.pow2_pos (- eg - j) ltac:(lia)) as HV.
    rewrite HS in Hb. nia.
Qed.

Lemma numGt_below emn j lo hi f mg eg :
  dy emn j lo hi f ->
  2 ^ 52 <= Zpos mg < 2 ^ 53 -> j <= - eg ->
  hi * 2 ^ (- eg - j) <= Zpos mg ->
  numGt f (S754_finite false mg eg) = false.
Proof.
  intros Hf Hmg Hj Hbelow.
  destruct f as [s | s | | s m e]; simpl in Hf; try contradiction;
    [reflexivity |].
  destruct Hf as (Hc & _ & Hej & [_ Hb]).
  destruct s; [reflexivity |].
  change (JsNum.mant false m) with (Zpos m) in Hb.
  unfold numGt, SFltb, SFcompare.
  destruct (Z.compare_spec eg e) as [-> | Hlt | Hgt].
  - rewrite Pos.compare_cont_spec. simpl.
    destruct (Pos.compare_spec mg m); try reflexivity. lia.
  - exfalso.
    assert (HS : 2 ^ (- eg - j) = 2 ^ (- e - j) * 2 ^ (e - eg)).
    { rewrite <- JsNumFacts.pow2_split by lia. f_equal. lia. }
    assert (H2 : 2 <= 2 ^ (e - eg)).
    { change 2 with (2 ^ 1) at 1. apply Z.pow_le_mono_r; lia. }
    pose proof (JsNumFacts.pow2_pos (- e - j) ltac:(lia)) as HV.
    rewrite HS in Hbelow. nia.
  - reflexivity.
Qed.

Lemma lit_4_10 : JsNum.lit 4 10 = S754_finite false 7205759403792794 (-54).
Proof. vm_compute. reflexivity. Qed.

Lemma lit_6_10 : JsNum.lit 6 10 = S754_finite false 5404319552844595 (-53).
Proof. vm_compute. reflexivity. Qed.

(** [h / c > 0.4] as the code computes it, for counts below 2^32. *)
Lemma ratio_gt_04 h c :
  0 <= h <= c -> 0 < c < 2 ^ 32 ->
  numGt (JsNum.div (JsNum.ofZ h) (JsNum.ofZ c)) (JsNum.lit 4 10) =
  (2 * c <? 5 * h).
Proof.
  intros Hh Hc. rewrite lit_4_10.
  change (2 ^ 32) with 4294967296 in Hc.
  assert (H53 : 2 ^ 53 = 9007199254740992) by reflexivity.
  assert (H54 : 2 ^ 54 = 18014398509481984) by reflexivity.
  assert (H52 : 2 ^ 52 = 4503599627370496) by reflexivity.
  assert (H51 : 2 ^ 51 = 2251799813685248) by reflexivity.
  destruct (Z.eq_dec h 0) as [-> | Hh0].
  { destruct (JsNumFacts.ofZ_pos c ltac:(lia)) as (m & e & -> & _).
    destruct (Z.ltb_spec (2 * c) (5 * 0)); [lia | reflexivity]. }
  destruct (Z.ltb_spec (2 * c) (5 * h)) as [Hgt | Hle].
  - destruct (Z.lt_ge_cases (2 * h) c) as [Hhalf | Hhalf].
    + eapply (numGt_above (-105) 54 7205759403792795 (2 ^ 53 - 1));
        [apply JsNumFacts.div_ofZ_dy | | | |]; try lia;
        try (change (- -54 - 54) with 0; simpl; lia).
    + eapply (numGt_above (-105) 52 (2 ^ 51) (2 ^ 52));
        [apply JsNumFacts.div_ofZ_dy | | | |]; try lia;
        try (change (- -54 - 52) with 2; simpl; lia).
  - eapply (numGt_below (-105) 54 0 7205759403792794);
      [apply JsNumFacts.div_ofZ_dy | | |]; try lia;
      try (change (- -54 - 54) with 0; simpl; lia).
Qed.

(** [e / c > 0.6] as the code computes it, away from the tie
    [5 * e = 3 * c]. *)
Lemma ratio_gt_06 e c :
  0 <= e <= c -> 0 < c < 2 ^ 32 -> 5 * e <> 3 * c ->
  numGt (JsNum.div (JsNum.ofZ e) (JsNum.ofZ c)) (JsNum.lit 6 10) =
  (3 * c <? 5 * e).
Proof.
  intros He Hc Htie. rewrite lit_6_10.
  change (2 ^ 32) with 4294967296 in Hc.
  assert (H53 : 2 ^ 53 = 9007199254740992) by reflexivity.
  assert (H52 : 2 ^ 52 = 4503599627370496) by reflexivity.
  destruct (Z.eq_dec e 0) as [-> | He0].
  { destruct (JsNumFacts.ofZ_pos c ltac:(lia)) as (m & x & -> & _).
    destruct (Z.ltb_spec (3 * c) (5 * 0)); [lia | reflexivity]. }
  destruct (Z.ltb_spec (3 * c) (5 * e)) as [Hgt | Hle].
  - destruct (Z.eq_dec e c) as [-> | Hne].
    + eapply (numGt_above (-105) 0 1 1);
        [apply JsNumFacts.div_ofZ_dy | | | |]; try lia;
        try (change (- -53 - 0) with 53; simpl; lia).
    + eapply (numGt_above (-105) 53 5404319552844596 (2 ^ 53 - 1));
        [apply JsNumFacts.div_ofZ_dy | | | |]; try lia;
        try (change (- -53 - 53) with 0; simpl; lia).
  - eapply (numGt_below (-105) 53 0 5404319552844595);
      [apply JsNumFacts.div_ofZ_dy | | |]; try lia;
      try (change (- -53 - 53) with 0; simpl; lia).
Qed.

(** X20. The advice thresholds as the floating-point comparisons decide
    them, for fewer than 2^32 completed sessions.  With fewer than three
    completed sessions the data is insufficient.  Otherwise the advice is
    critical exactly when more than two fifths of the completed sessions
    were rated hard; and, the exact tie of three fifths apart, it is the
    efficiency warning exactly when it is not critical and more than
    three fifths were rated easy, and optimal exactly when neither
    holds. *)
Theorem advice_thresholds t :
  let rs := List.filter completed (reviews t) in
  let c := Z.of_nat (length rs) in
  let h := Z.of_nat (length (List.filter (hasRating hard) rs)) in
  let e := Z.of_nat (length (List.filter (hasRating easy) rs)) in
  c < 2 ^ 32 ->
  (getAdvice t = InsufficientData <-> c < 3) /\
  (getAdvice t = Critical <-> 3 <= c /\ 2 * c < 5 * h) /\
  (5 * e <> 3 * c ->
   (getAdvice t = EfficiencyWarning <->
    3 <= c /\ 5 * h <= 2 * c /\ 3 * c < 5 * e) /\
   (getAdvice t = Optimal <->
    3 <= c /\ 5 * h <= 2 * c /\ 5 * e < 3 * c)).
Proof.
  intros rs c h e Hc.
  assert (Hh : 0 <= h <= c).
  { unfold h, c. pose proof (List.filter_length_le (hasRating hard) rs).
    lia. }
  assert (He : 0 <= e <= c).
  { unfold e, c. pose proof (List.filter_length_le (hasRating easy) rs).
    lia. }
  unfold getAdvice. fold rs. cbv zeta. fold c h e.
  destruct (Nat.ltb_spec (length rs) 3) as [Hfew | Hmany].
  - assert (c < 3) by (unfold c; lia).
    repeat split; intros; try discriminate; try reflexivity;
      try lia; exfalso; lia.
  - assert (3 <= c) by (unfold c; lia).
    rewrite (ratio_gt_04 h c Hh ltac:(lia)).
    destruct (Z.ltb_spec (2 * c) (5 * h)) as [Hcrit | Hnot].
    + repeat split; intros; try discriminate; try reflexivity;
        try lia; exfalso; lia.
    + set (b := numGt (JsNum.div (JsNum.ofZ e) (JsNum.ofZ c))
                      (JsNum.lit 6 10)).
      split; [destruct b; (split; [discriminate | lia]) |].
      split; [destruct b; (split; [discriminate | lia]) |].
      intros Htie. unfold b. rewrite (ratio_gt_06 e c He ltac:(lia) Htie).
      destruct (Z.ltb_spec (3 * c) (5 * e));
        repeat split; intros; try discriminate; try reflexivity;
          try lia; exfalso; lia.
Qed.

Lemma advice_thresholds_witness :
  getAdvice
    (mkTopic "t1" "Graphs" sampleNow None 5 [] "summary"
       [complete sampleNow hard (pending 1700086400000 1 initial);
        complete sampleNow hard (pending 1700259200000 2 standard);
        complete sampleNow good (pending 1700604800000 4 standard)]
       NextCompleted 33 None) = Critical.
Proof.
  apply advice_thresholds.
  - vm_compute. reflexivity.
  - vm_compute. split; [discriminate | reflexivity].
Defined.

(** * Further properties of the dashboard lists *)

Lemma startOfDay_eq offset t :
  startOfDay offset t = localDay offset t * msPerDay - offset.
Proof.
  unfold startOfDay, localDay, dayOf.
  pose proof (Z.div_mod (t + offset) msPerDay ltac:(discriminate)). lia.
Qed.

Lemma ceilDays_multiple n :
  - 2 ^ 51 < n * msPerDay < 2 ^ 51 -> ceilDays (n * msPerDay) = n.
Proof.
  intros H. rewrite (ceilDays_exact _ H).
  replace (- (n * msPerDay)) with (- n * msPerDay) by lia.
  rewrite Z.div_mul by discriminate. lia.
Qed.

Lemma localDay_window offset a b :
  inWindow offset a -> inWindow offset b ->
  - 2 ^ 51 < (localDay offset a - localDay offset b) * msPerDay < 2 ^ 51.
Proof.
  unfold inWindow, localDay, dayOf. intros Ha Hb.
  pose proof (Z.div_mod (a + offset) msPerDay ltac:(discriminate)) as H1.
  pose proof (Z.mod_pos_bound (a + offset) msPerDay ltac:(reflexivity)) as H2.
  pose proof (Z.div_mod (b + offset) msPerDay ltac:(discriminate)) as H3.
  pose proof (Z.mod_pos_bound (b + offset) msPerDay ltac:(reflexivity)) as H4.
  change (2 ^ 49) with 562949953421312 in *.
  change (2 ^ 51) with 2251799813685248.
  change msPerDay with 86400000 in *. lia.
Qed.

Lemma workloadReview_length offset today w r :
  length (workloadReview offset today w r) = length w.
Proof.
  unfold workloadReview. destruct (negb (completed r)); [| reflexivity].
  cbv zeta. destruct (_ && _); [apply length_alter | reflexivity].
Qed.

Lemma workloadReview_lookup offset now w r i x :
  inWindow offset now -> inWindow offset (date r) ->
  (i < 7)%nat -> w !! i = Some x ->
  workloadReview offset (startOfDay offset now) w r !! i =
  Some (if pendingOn offset (localDay offset now + Z.of_nat i) r
        then countUp x else x).
Proof.
  intros Hnow Hr Hi Hx. unfold workloadReview, pendingOn.
  destruct (completed r); cbn [negb andb]; [exact Hx |]. cbv zeta.
  rewrite !startOfDay_eq.
  replace (localDay offset (date r) * msPerDay - offset -
           (localDay offset now * msPerDay - offset))
    with ((localDay offset (date r) - localDay offset now) * msPerDay)
    by lia.
  rewrite ceilDays_multiple by (now apply localDay_window).
  set (n := localDay offset (date r) - localDay offset now).
  destruct (Z.eqb_spec (localDay offset (date r))
              (localDay offset now + Z.of_nat i)) as [Heq | Hne].
  - assert (Hn : n = Z.of_nat i) by (unfold n; lia).
    rewrite Hn.
    destruct (Z.leb_spec 0 (Z.of_nat i)); [| lia].
    destruct (Z.ltb_spec (Z.of_nat i) 7); [| lia]. cbn [andb].
    rewrite Nat2Z.id, list_lookup_alter_eq, Hx. reflexivity.
  - destruct (_ && _) eqn:E; [| exact Hx].
    apply andb_true_iff in E as [E1 E2].
    apply Z.leb_le in E1. apply Z.ltb_lt in E2.
    rewrite list_lookup_alter_ne; [exact Hx |].
    unfold n in *. lia.
Qed.

Lemma workloadReviews_lookup offset now rs w i x :
  inWindow offset now -> Forall (fun r => inWindow offset (date r)) rs ->
  (i < 7)%nat -> w !! i = Some x ->
  exists x',
    foldl (workloadReview offset (startOfDay offset now)) w rs !! i =
      Some x' /\
    wdDate x' = wdDate x /\ wdName x' = wdName x /\ wdHeavy x' = wdHeavy x /\
    wdCount x' =
    (wdCount x +
     length (List.filter
               (pendingOn offset (localDay offset now + Z.of_nat i)) rs))%nat.
Proof.
  intros Hnow Hrs Hi. revert w x.
  induction Hrs as [| r rs Hr _ IH]; intros w x Hx; simpl.
  - exists x. repeat split; auto.
  - pose proof (workloadReview_lookup offset now w r i x Hnow Hr Hi Hx) as H.
    destruct (IH _ _ H) as (x' & Hx' & Hd & Hn & Hh & Hc).
    exists x'. split; [exact Hx' |].
    destruct (pendingOn _ _ r); simpl in *; repeat split; auto; lia.
Qed.

Lemma workloadTopics_lookup offset now topics w i x :
  inWindow offset now ->
  Forall (fun t => Forall (fun r => inWindow offset (date r)) (reviews t))
         topics ->
  (i < 7)%nat -> w !! i = Some x ->
  exists x',
    foldl (fun w t =>
             foldl (workloadReview offset (startOfDay offset now)) w
                   (reviews t)) w topics !! i = Some x' /\
    wdDate x' = wdDate x /\ wdName x' = wdName x /\ wdHeavy x' = wdHeavy x /\
    wdCount x' =
    (wdCount x +
     workloadCount offset (localDay offset now + Z.of_nat i) topics)%nat.
Proof.
  intros Hnow Hts Hi. revert w x. unfold workloadCount.
  induction Hts as [| t ts Ht _ IH]; intros w x Hx; simpl.
  - exists x. repeat split; auto.
  - destruct (workloadReviews_lookup offset now (reviews t) w i x
                Hnow Ht Hi Hx) as (y & Hy & Hd & Hn & Hh & Hc).
    destruct (IH _ _ Hy) as (x' & Hx' & Hd' & Hn' & Hh' & Hc').
    exists x'. split; [exact Hx' |].
    rewrite List.filter_app, length_app.
    repeat split; try congruence. lia.
Qed.

Lemma workloadTopics_length offset today topics w :
  length (foldl (fun w t =>
                   foldl (workloadReview offset today) w (reviews t))
                w topics) = length w.
Proof.
  revert w. induction topics as [| t ts IH]; intros w; simpl;
    [reflexivity |].
  rewrite IH. generalize (reviews t). intros rs. revert w.
  induction rs as [| r rs IHr]; intros w; simpl; [reflexivity |].
  now rewrite IHr, workloadReview_length.
Qed.

(** X21. The weekly workload has seven buckets, for today and the six
    days after it.  With all times inside the window, bucket i carries
    the date now + i days and counts exactly the pending sessions, over
    all topics, whose local calendar day is today's plus i; completed
    sessions, overdue ones and those a week or more away are counted in
    no bucket; and a bucket is heavy exactly when it holds more than
    three sessions. *)
Theorem weekly_workload offset now topics :
  inWindow offset now ->
  Forall (fun t => Forall (fun r => inWindow offset (date r)) (reviews t))
         topics ->
  length (weeklyWorkload offset now topics) = 7%nat /\
  forall i, (i < 7)%nat ->
    exists d,
      weeklyWorkload offset now topics !! i = Some d /\
      wdDate d = addDays now (Z.of_nat i) /\
      wdCount d =
        workloadCount offset (localDay offset now + Z.of_nat i) topics /\
      wdHeavy d = (3 <? wdCount d)%nat.
Proof.
  intros Hnow Hts. unfold weeklyWorkload. cbv zeta. split.
  - rewrite length_map, workloadTopics_length, length_map, length_seq.
    reflexivity.
  - intros i Hi.
    set (w0 := map _ (seq 0 7)).
    assert (Hx : w0 !! i =
                 Some {| wdDate := addDays now (Z.of_nat i);
                         wdName := weekdayName offset
                                     (addDays now (Z.of_nat i));
                         wdCount := 0; wdHeavy := false |}).
    { unfold w0. rewrite list_lookup_fmap.
      rewrite lookup_seq_lt by exact Hi. reflexivity. }
    destruct (workloadTopics_lookup offset now topics w0 i _ Hnow Hts Hi Hx)
      as (x' & Hx' & Hd & _ & _ & Hc).
    eexists. split.
    + rewrite list_lookup_fmap, Hx'. reflexivity.
    + cbn [wdDate wdCount wdHeavy]. rewrite Hd, Hc. auto.
Qed.

Lemma weekly_workload_witness :
  length (weeklyWorkload 0 sampleNow [sampleTopic]) = 7%nat.
Proof.
  apply weekly_workload.
  - vm_compute. split; reflexivity.
  - repeat constructor; vm_compute; reflexivity.
Defined.

Lemma insertByKey_perm {A} (key : A -> Z) x l :
  Permutation (insertByKey key x l) (x :: l).
Proof.
  induction l as [| y l IH]; simpl; [reflexivity |].
  destruct (key x <=? key y); [reflexivity |].
  rewrite IH. apply perm_swap.
Qed.

Lemma sortByKey_perm {A} (key : A -> Z) l : Permutation (sortByKey key l) l.
Proof.
  induction l as [| x l IH]; simpl; [reflexivity |].
  rewrite insertByKey_perm. now constructor.
Qed.

Lemma insertByKey_sorted {A} (key : A -> Z) x l :
  StronglySorted (fun a b => key a <= key b) l ->
  StronglySorted (fun a b => key a <= key b) (insertByKey key x l).
Proof.
  induction 1 as [| y l Hl IH Hy]; simpl.
  - repeat constructor.
  - destruct (Z.leb_spec (key x) (key y)).
    + constructor; [now constructor |].
      constructor; [assumption |].
      eapply List.Forall_impl; [| exact Hy]. simpl. intros. lia.
    + constructor; [exact IH |].
      rewrite insertByKey_perm. constructor; [lia | exact Hy].
Qed.

Lemma sortByKey_sorted {A} (key : A -> Z) l :
  StronglySorted (fun a b => key a <= key b) (sortByKey key l).
Proof.
  induction l as [| x l IH]; simpl.
  - constructor.
  - now apply insertByKey_sorted.
Qed.

Lemma foldl_push {A B} (f : A -> option B) l acc :
  foldl (fun acc t => match f t with
                      | Some u => acc ++ [u]
                      | None => acc
                      end) acc l = acc ++ omap f l.
Proof.
  revert acc. induction l as [| t l IH]; intros acc; simpl.
  - now rewrite app_nil_r.
  - rewrite IH. destruct (f t); [| reflexivity].
    now rewrite <- app_assoc.
Qed.

(** X22. The upcoming-reviews list is sorted by days away and holds, for
    each topic that has one, the entry of its first pending session dated
    at or after local midnight of today, and nothing for the other
    topics.  With all times inside the window, the days away of an entry
    is the distance from local midnight rounded up to whole days, so it
    is never negative and it is 0 only for a session dated exactly at
    midnight: a session later today is one day away. *)
Theorem upcoming_reviews offset now topics :
  inWindow offset now ->
  Forall (fun t => Forall (fun r => inWindow offset (date r)) (reviews t))
         topics ->
  let today := startOfDay offset now in
  let us := upcomingReviews offset now topics in
  StronglySorted (fun a b => daysAway a <= daysAway b) us /\
  Permutation us (omap (upcomingOf today) topics) /\
  Forall (fun u =>
    exists t r,
      In t topics /\ In r (reviews t) /\ completed r = false /\
      upTopicId u = id t /\ upDate u = date r /\ upType u = type r /\
      today <= date r /\
      0 <= daysAway u /\
      today + (daysAway u - 1) * msPerDay < date r
        <= today + daysAway u * msPerDay /\
      (daysAway u = 0 <-> date r = today)) us.
Proof.
  intros Hnow Hts today us.
  assert (Hperm : Permutation us (omap (upcomingOf today) topics)).
  { unfold us, upcomingReviews. cbv zeta. rewrite sortByKey_perm.
    fold today. rewrite foldl_push. reflexivity. }
  split; [apply sortByKey_sorted |]. split; [exact Hperm |].
  apply List.Forall_forall. intros u Hu.
  apply list_elem_of_In in Hu. rewrite Hperm in Hu.
  apply list_elem_of_omap in Hu as (t & Ht & Hut).
  apply list_elem_of_In in Ht.
  unfold upcomingOf in Hut.
  destruct (List.find _ (reviews t)) as [r |] eqn:E; [| discriminate].
  injection Hut as <-. cbn [upTopicId upDate upType daysAway].
  apply List.find_some in E as [Hr Hp].
  apply andb_true_iff in Hp as [Hc Hd].
  apply negb_true_iff in Hc. apply Z.leb_le in Hd.
  exists t, r. do 7 (split; [auto |]).
  assert (Hwin : inWindow offset (date r)).
  { apply (proj1 (List.Forall_forall _ _) Hts) in Ht.
    apply (proj1 (List.Forall_forall _ _) Ht) in Hr. exact Hr. }
  assert (Hdiff : - 2 ^ 51 < date r - today < 2 ^ 51).
  { unfold today in *. rewrite startOfDay_eq in *.
    unfold inWindow, localDay, dayOf in *.
    pose proof (Z.div_mod (now + offset) msPerDay ltac:(discriminate)).
    pose proof (Z.mod_pos_bound (now + offset) msPerDay ltac:(reflexivity)).
    change (2 ^ 49) with 562949953421312 in *.
    change (2 ^ 51) with 2251799813685248.
    change msPerDay with 86400000 in *. lia. }
  rewrite (ceilDays_exact _ Hdiff).
  assert (HD : msPerDay = 86400000) by reflexivity. rewrite HD.
  pose proof (Z.div_mod (- (date r - today)) 86400000 ltac:(lia)) as Hdm.
  pose proof (Z.mod_pos_bound (- (date r - today)) 86400000 ltac:(lia))
    as Hmb.
  repeat split; lia.
Qed.

Lemma upcoming_reviews_witness :
  StronglySorted (fun a b => daysAway a <= daysAway b)
    (upcomingReviews 0 sampleNow [sampleTopic]).
Proof.
  apply upcoming_reviews.
  - vm_compute. split; reflexivity.
  - repeat constructor; vm_compute; reflexivity.
Defined.

Lemma find_map_id (f : Topic -> Topic) sel l :
  (forall t, id (f t) = id t) ->
  List.find (fun t => String.eqb (id t) sel) (map f l) =
  option_map f (List.find (fun t => String.eqb (id t) sel) l).
Proof.
  intros Hf. induction l as [| t l IH]; simpl; [reflexivity |].
  rewrite Hf. destruct (String.eqb (id t) sel); [reflexivity | exact IH].
Qed.

(** X23. The details view follows the topic it shows: after opening a
    topic's details, a completion or a notes edit leaves the same topic
    selected, now in its updated state, and a completion addressed to
    another topic leaves the selected topic untouched. *)
Theorem selection_follows_updates sel now topicId d rt text a :
  let a0 := setView viewDetails (Some sel) a in
  selectedTopic (updateTopics (markReviewComplete now topicId d rt) a0) =
    option_map (fun t => if String.eqb (id t) topicId
                         then completeReview now d rt t else t)
               (selectedTopic a0) /\
  (sel <> topicId ->
   selectedTopic (updateTopics (markReviewComplete now topicId d rt) a0) =
     selectedTopic a0) /\
  option_map id
    (selectedTopic (updateTopics (updateNotes topicId text) a0)) =
  option_map id (selectedTopic a0).
Proof.
  intros a0. unfold a0, selectedTopic, updateTopics, setView.
  cbn [selectedTopicId appTopics].
  assert (H1 : List.find (fun t => String.eqb (id t) sel)
                 (markReviewComplete now topicId d rt (appTopics a)) =
               option_map (fun t => if String.eqb (id t) topicId
                                    then completeReview now d rt t else t)
                 (List.find (fun t => String.eqb (id t) sel) (appTopics a))).
  { unfold markReviewComplete.
    rewrite (map_ext _ (fun t => if String.eqb (id t) topicId
                                 then completeReview now d rt t else t)).
    - apply find_map_id. intros t.
      destruct (String.eqb (id t) topicId);
        [apply completeReview_id | reflexivity].
    - intros t. destruct (String.eqb (id t) topicId); reflexivity. }
  split; [exact H1 |]. split.
  - intros Hne. rewrite H1.
    destruct (List.find _ (appTopics a)) as [t |] eqn:E; [| reflexivity].
    apply List.find_some in E as [_ E]. apply String.eqb_eq in E.
    simpl. destruct (String.eqb_spec (id t) topicId); [congruence |].
    reflexivity.
  - unfold updateNotes. rewrite find_map_id.
    + destruct (List.find _ (appTopics a)) as [t |]; [| reflexivity].
      simpl. destruct (String.eqb (id t) topicId); reflexivity.
    + intros t. destruct (String.eqb (id t) topicId); reflexivity.
Qed.

Lemma selection_follows_updates_witness :
  selectedTopic
    (updateTopics (markReviewComplete sampleNow "t2" 1700086400000 good)
       (setView viewDetails (Some "t1")
          (mkApp [sampleTopic] viewDashboard None false))) =
  selectedTopic
    (setView viewDetails (Some "t1")
       (mkApp [sampleTopic] viewDashboard None false)).
Proof.
  apply (selection_follows_updates "t1" sampleNow "t2" 1700086400000 good
           "text" (mkApp [sampleTopic] viewDashboard None false)).
  discriminate.
Defined.

(** * Time zones *)

(** ** Zones of fixed offset *)

Lemma fixedZone_fixed off : fixedOffset (fixedZone off).
Proof. exists off. intros t. split; reflexivity. Qed.

Lemma setDate_fixed z t n : fixedOffset z -> setDate z t n = addDays t n.
Proof.
  intros [off H]. unfold setDate, utcTime, localTime, addDays.
  rewrite (proj1 (H t)), (proj2 (H (t + off + n * msPerDay))). lia.
Qed.

Lemma zoned_scheduleLoop_fixed z n ex m iv rd acc :
  fixedOffset z ->
  Zoned.scheduleLoop z n ex m iv rd acc = scheduleLoop n ex m iv rd acc.
Proof.
  intros Hz. revert iv rd acc.
  induction n as [| n IH]; intros iv rd acc;
    cbn [Zoned.scheduleLoop scheduleLoop]; [reflexivity |].
  destruct (pastExam ex rd); [reflexivity |].
  rewrite setDate_fixed by exact Hz. apply IH.
Qed.

Lemma zoned_generateSchedule_fixed z now c exam :
  fixedOffset z ->
  Zoned.generateSchedule z now c exam = generateSchedule now c exam.
Proof.
  intros Hz. unfold Zoned.generateSchedule, generateSchedule.
  rewrite zoned_scheduleLoop_fixed, setDate_fixed by exact Hz.
  destruct exam as [e |]; [| reflexivity].
  unfold Zoned.reconcileExam, reconcileExam.
  now rewrite setDate_fixed by exact Hz.
Qed.

Lemma zoned_reschedule_soft z now rt i l :
  rt <> hard -> Zoned.reschedule z now rt i l = reschedule now rt i l.
Proof. destruct rt; [congruence | reflexivity | reflexivity]. Qed.

(** ** The schedule in any zone *)








(** ** Completion in any zone *)

Lemma zoned_reviews_completeReview z now d rt t i :
  findIndex (fun _ r => date r =? d) (reviews t) = Some i ->
  reviews (Zoned.completeReview z now d rt t) =
  Zoned.reschedule z now rt i (alter (complete now rt) i (reviews t)).
Proof. intros H. unfold Zoned.completeReview. now rewrite H. Qed.




Lemma zoned_reschedule_count z (p : ReviewSession -> bool) now rt i l :
  (forall x, completed x = false -> p x = false) ->
  length (List.filter p (Zoned.reschedule z now rt i l)) =
  length (List.filter p l).
Proof.
  intros Hp. destruct rt.
  - unfold Zoned.reschedule.
    destruct (existsOnDay _ l); [reflexivity |].
    rewrite (filter_length_perm p _ _ (sortByDate_perm _)).
    rewrite List.filter_app, length_app. simpl.
    rewrite (Hp (pending _ _ _) eq_refl). simpl. lia.
  - reflexivity.
  - rewrite zoned_reschedule_soft by discriminate.
    now apply reschedule_count.
Qed.




(** ** The heatmap in any zone *)

Lemma zoned_gridLoop_lookup z now m n i :
  (i < n)%nat ->
  Zoned.gridLoop z now m n !! i = Some (Zoned.cellAt z now m (n - 1 - i)).
Proof.
  revert i. induction n as [| n IH]; intros i Hi; [lia |].
  destruct i as [| i]; cbn [Zoned.gridLoop lookup list_lookup].
  - do 2 f_equal. lia.
  - rewrite IH by lia. do 2 f_equal. lia.
Qed.

Lemma zoned_gridLoop_length z now m n :
  length (Zoned.gridLoop z now m n) = n.
Proof. induction n; simpl; congruence. Qed.

(** C8. At the end of daylight time, in New York at 2023-11-06T00:30Z
    (19:30 on the 5th) the grid has no cell for 2023-11-05, the day
    before today in UTC: a session completed at noon UTC of that day is
    counted in no cell, while the first cell is the day 60 days before
    today. *)
Theorem heatmap_skips_a_day :
  dayOf nov5Noon = dayOf nov6Early - 1 /\
  Forall (fun c => cellDate c <> dayOf nov5Noon /\ cellCount c = 0%nat)
         (Zoned.activityHeatmap newYork nov6Early [topicDoneNov5]) /\
  (exists c rest,
     Zoned.activityHeatmap newYork nov6Early [topicDoneNov5] = c :: rest /\
     cellDate c = dayOf nov6Early - 60).
Proof.
  split; [reflexivity |]. split.
  - apply List.Forall_forall. intros c Hc. vm_compute in Hc.
    repeat (destruct Hc as [<- | Hc];
            [split; [discriminate | reflexivity] |]).
    contradiction.
  - eexists _, _. split; [vm_compute; reflexivity | reflexivity].
Qed.

(** * Further properties, zone by zone *)

(** X2. In a zone of fixed offset and for a complexity from 1 to 10: when
    the loop emitted sessions and the exam lies within 2^51 ms of the
    last one, a [final] session is appended exactly when the exam is more
    than four days after the last emitted session; it is then dated two
    days before the exam, more than two days after that last session, and
    its interval is the exact number of days (rounded up) between the
    two, minus 2, hence at least 3. *)
Theorem final_session_rule z now c e lastReview :
  fixedOffset z ->
  1 <= c <= 10 ->
  let emitted :=
    Zoned.scheduleLoop z 20 (Some e) (multiplierOf c) (JsNum.ofZ 1)
      (setDate z now 1) [] in
  last emitted = Some lastReview ->
  - 2 ^ 51 < e - date lastReview < 2 ^ 51 ->
  let diff := e - date lastReview in
  let days := - ((- diff) / msPerDay) in
  (4 * msPerDay < diff ->
   Zoned.generateSchedule z now c (Some e) =
     emitted ++ [pending (setDate z e (-2)) (days - 2) final] /\
   2 * msPerDay < setDate z e (-2) - date lastReview /\ 3 <= days - 2) /\
  (diff <= 4 * msPerDay -> Zoned.generateSchedule z now c (Some e) = emitted).
Proof.
  intros Hz Hc.
  rewrite zoned_scheduleLoop_fixed, zoned_generateSchedule_fixed,
    !setDate_fixed by exact Hz.
  exact (reconcileExam_final now c e lastReview Hc).
Qed.

Lemma final_session_rule_witness :
  Zoned.generateSchedule (fixedZone (-5 * hour)) sampleNow 5
    (Some (addDays sampleNow 30)) =
  Zoned.scheduleLoop (fixedZone (-5 * hour)) 20 (Some (addDays sampleNow 30))
    (multiplierOf 5) (JsNum.ofZ 1)
    (setDate (fixedZone (-5 * hour)) sampleNow 1) [].
Proof.
  pose proof (final_session_rule (fixedZone (-5 * hour)) sampleNow 5
                (addDays sampleNow 30)
                (pending (addDays sampleNow 28) 13 standard)
                (fixedZone_fixed _) ltac:(lia)) as H.
  cbv zeta in H.
  specialize (H ltac:(vm_compute; reflexivity)
                ltac:(vm_compute; split; reflexivity)).
  apply H. vm_compute. discriminate.
Defined.

(** X5. In a zone of fixed offset the schedule depends on the clock only
    by translation: for a complexity from 1 to 10, creating the topic
    [delta] ms later, with the exam date (if any) moved by as much, moves
    every session by [delta] and changes nothing else. *)
Theorem schedule_translation z delta now c exam :
  fixedOffset z ->
  1 <= c <= 10 ->
  Zoned.generateSchedule z (now + delta) c
    (option_map (fun e => e + delta) exam) =
  map (shift delta) (Zoned.generateSchedule z now c exam).
Proof.
  intros Hz Hc. rewrite !zoned_generateSchedule_fixed by exact Hz.
  now apply generateSchedule_shift.
Qed.

Lemma schedule_translation_witness :
  Zoned.generateSchedule (fixedZone (-5 * hour)) (sampleNow + 3600000) 5
    (option_map (fun e => e + 3600000) (Some (addDays sampleNow 30))) =
  map (shift 3600000)
      (Zoned.generateSchedule (fixedZone (-5 * hour)) sampleNow 5
         (Some (addDays sampleNow 30))).
Proof.
  apply schedule_translation; [apply fixedZone_fixed | lia].
Defined.

(** X6. In a zone of fixed offset, for a complexity from 1 to 10 and no
    exam date, the reviews spread out: consecutive sessions are at least
    two days apart and no gap is shorter than the gap before it. *)
Theorem spacing_widens z now c :
  fixedOffset z ->
  1 <= c <= 10 ->
  Forall (fun g => 2 * msPerDay <= g)
         (gaps (Zoned.generateSchedule z now c None)) /\
  StronglySorted Z.le (gaps (Zoned.generateSchedule z now c None)).
Proof.
  intros Hz Hc. rewrite zoned_generateSchedule_fixed by exact Hz.
  now apply generateSchedule_widening.
Qed.

Lemma spacing_widens_witness :
  Forall (fun g => 2 * msPerDay <= g)
         (gaps (Zoned.generateSchedule (fixedZone (-5 * hour)) sampleNow 8
                  None)) /\
  StronglySorted Z.le
    (gaps (Zoned.generateSchedule (fixedZone (-5 * hour)) sampleNow 8 None)).
Proof.
  apply (spacing_widens (fixedZone (-5 * hour)) sampleNow 8);
    [apply fixedZone_fixed | lia].
Defined.



Lemma zoned_markReviewComplete_other z now topicId d rt l :
  Forall (fun u => id u <> topicId) l ->
  Zoned.markReviewComplete z now topicId d rt l = l.
Proof.
  unfold Zoned.markReviewComplete.
  induction 1 as [| u l Hu _ IH]; simpl; [reflexivity |].
  rewrite IH. destruct (String.eqb_spec (id u) topicId); [contradiction |].
  reflexivity.
Qed.

(** X18. In any time zone, completing a pending session (topic ids
    distinct) adds exactly one review to the day of the completion,
    whatever the rating and the rescheduling it causes: every daily count
    is unchanged except that of today's UTC day, which grows by one; so
    each heatmap cell dated today gains one and every other cell keeps
    its count.  In a zone of fixed offset the cell dated today is the
    last one only. *)
Theorem heatmap_records_completion z now topicId d rt pre t post i r :
  Forall (fun u => id u <> topicId) (pre ++ post) ->
  id t = topicId ->
  findIndex (fun _ x => date x =? d) (reviews t) = Some i ->
  reviews t !! i = Some r ->
  completed r = false ->
  let topics := pre ++ t :: post in
  let topics' := Zoned.markReviewComplete z now topicId d rt topics in
  (forall k, activityCount k topics' =
             (activityCount k topics +
              if (k =? dayOf now)%Z then 1 else 0)%nat) /\
  (forall j c, Zoned.activityHeatmap z now topics !! j = Some c ->
     exists c', Zoned.activityHeatmap z now topics' !! j = Some c' /\
       cellDate c' = cellDate c /\
       cellCount c' =
       (cellCount c + if (cellDate c =? dayOf now)%Z then 1 else 0)%nat /\
       (fixedOffset z -> (cellDate c = dayOf now <-> j = 59%nat))).
Proof.
  intros Hothers Hid Hi Hr Hpending topics topics'.
  apply Forall_app in Hothers as [Hpre Hpost].
  assert (Hcount : forall k, activityCount k topics' =
             (activityCount k topics +
              if (k =? dayOf now)%Z then 1 else 0)%nat).
  { intros k. unfold topics', topics.
    unfold Zoned.markReviewComplete. rewrite map_app. cbn [map].
    fold (Zoned.markReviewComplete z now topicId d rt pre).
    fold (Zoned.markReviewComplete z now topicId d rt post).
    rewrite !zoned_markReviewComplete_other by assumption.
    rewrite Hid, String.eqb_refl. cbn [negb].
    rewrite !activityCount_app.
    change (t :: post) with ([t] ++ post).
    change (Zoned.completeReview z now d rt t :: post)
      with ([Zoned.completeReview z now d rt t] ++ post).
    rewrite !activityCount_app.
    assert (Ht : activityCount k [Zoned.completeReview z now d rt t] =
                 (activityCount k [t] +
                  if (k =? dayOf now)%Z then 1 else 0)%nat).
    { unfold activityCount. cbn [map concat]. rewrite !app_nil_r.
      rewrite (zoned_reviews_completeReview _ _ _ _ _ _ Hi).
      rewrite zoned_reschedule_count.
      - pose proof (count_alter (countsOn k) (complete now rt) i _ r Hr)
          as H.
        unfold countsOn at 2 4 in H. rewrite Hpending in H.
        cbn [complete completed andb] in H.
        change (activityDay (complete now rt r)) with (dayOf now) in H.
        rewrite (Z.eqb_sym (dayOf now) k) in H.
        destruct (k =? dayOf now); lia.
      - intros x Hx. unfold countsOn. now rewrite Hx. }
    rewrite Ht. lia. }
  split; [exact Hcount |].
  intros j c Hj.
  assert (Hlt : (j < 60)%nat).
  { apply lookup_lt_Some in Hj. unfold Zoned.activityHeatmap in Hj.
    now rewrite zoned_gridLoop_length in Hj. }
  unfold Zoned.activityHeatmap in *.
  rewrite zoned_gridLoop_lookup in Hj by exact Hlt.
  injection Hj as <-. rewrite zoned_gridLoop_lookup by exact Hlt.
  eexists. split; [reflexivity |].
  unfold Zoned.cellAt. cbn [cellDate cellCount].
  split; [reflexivity |].
  rewrite !tally_lookup, Hcount. split; [reflexivity |].
  intros Hz. rewrite setDate_fixed by exact Hz. rewrite dayOf_addDays.
  change (60 - 1 - j)%nat with (59 - j)%nat. lia.
Qed.

Lemma heatmap_records_completion_witness :
  activityCount (dayOf sampleNow)
    (Zoned.markReviewComplete newYork sampleNow "t1" 1700086400000 easy
       [sampleTopic]) =
  (activityCount (dayOf sampleNow) [sampleTopic] + 1)%nat.
Proof.
  pose proof (heatmap_records_completion newYork sampleNow "t1"
                1700086400000 easy
                [] sampleTopic [] 0%nat (pending 1700086400000 1 initial)
                ltac:(constructor) eq_refl
                ltac:(vm_compute; reflexivity)
                ltac:(vm_compute; reflexivity) eq_refl) as H.
  cbv zeta in H. destruct H as [H _].
  specialize (H (dayOf sampleNow)). rewrite Z.eqb_refl in H. exact H.
Defined.

(** X24. The heatmap in any time zone: 60 cells; the cell that is [k]
    places from the end is for the UTC calendar day of the instant [k]
    local calendar days before now, and carries the number of completed
    sessions of that day and its intensity 0, 1 (1-2), 2 (3-5), 3 (6-8)
    or 4 (9 and more).  In a zone of fixed offset these are the 60
    consecutive UTC days ending today, and a session completed 61 days
    ago falls on no cell. *)
Theorem heatmap_cells z now topics :
  length (Zoned.activityHeatmap z now topics) = 60%nat /\
  (forall i, (i < 60)%nat ->
     Zoned.activityHeatmap z now topics !! i =
     Some (let day := dayOf (setDate z now (- Z.of_nat (59 - i))) in
           let count := activityCount day topics in
           {| cellDate := day; cellCount := count;
              cellIntensity := intensityTable count |})) /\
  (fixedOffset z ->
   (forall i, (i < 60)%nat ->
      dayOf (setDate z now (- Z.of_nat (59 - i))) =
      dayOf now - 59 + Z.of_nat i) /\
   (forall r c,
      completedDate r = Some (setDate z now (-61)) ->
      In c (Zoned.activityHeatmap z now topics) ->
      cellDate c <> activityDay r)).
Proof.
  assert (Hcell : forall i, (i < 60)%nat ->
     Zoned.activityHeatmap z now topics !! i =
     Some (let day := dayOf (setDate z now (- Z.of_nat (59 - i))) in
           let count := activityCount day topics in
           {| cellDate := day; cellCount := count;
              cellIntensity := intensityTable count |})).
  { intros i Hi. unfold Zoned.activityHeatmap.
    rewrite zoned_gridLoop_lookup by exact Hi.
    unfold Zoned.cellAt. rewrite tally_lookup, intensityOf_table.
    reflexivity. }
  split; [apply zoned_gridLoop_length |]. split; [exact Hcell |].
  intros Hz.
  assert (Hday : forall i, (i < 60)%nat ->
            dayOf (setDate z now (- Z.of_nat (59 - i))) =
            dayOf now - 59 + Z.of_nat i).
  { intros i Hi. rewrite setDate_fixed by exact Hz.
    rewrite dayOf_addDays. lia. }
  split; [exact Hday |].
  intros r c Hr Hc. unfold activityDay.
  rewrite Hr, setDate_fixed by exact Hz. rewrite dayOf_addDays.
  apply list_elem_of_In, list_elem_of_lookup in Hc as [i Hi].
  assert (Hlt : (i < 60)%nat).
  { apply lookup_lt_Some in Hi.
    unfold Zoned.activityHeatmap in Hi.
    now rewrite zoned_gridLoop_length in Hi. }
  rewrite (Hcell i Hlt) in Hi. injection Hi as <-.
  cbn [cellDate]. rewrite (Hday i Hlt). lia.
Qed.
